(** * Downspout: the FTP scanner and the download-queue orchestrator

    A shallow embedding of [server/src/libs/FtpScanner.ts] (class
    [FtpScanner]) and of the [SyncController] class that consumes its
    events, followed by the properties of the scan / sync engine.

    JavaScript strings are [string], JavaScript numbers that are used as
    integers are [Z].  Objects that are shared and mutated in place (the
    [FtpFile] objects held by the download queue) live in an explicit store
    and are referred to by reference. *)

From Stdlib Require Import String Ascii List ZArith Bool Lia Permutation.
Import ListNotations.

Local Open Scope Z_scope.
Local Open Scope list_scope.
Local Set Warnings "-register-all".

(** ** Data model *)

(** Modelled from the spec: the constants [FtpFile.FTP_TYPE_FILE],
    [FtpFile.FTP_TYPE_DIRECTORY] and [FtpFile.FTP_TYPE_SYM_LINK] that the
    [type] field of a listing entry is compared with ("type in file, symlink,
    directory"); any other value of the field is [FTP_TYPE_OTHER]. *)
Inductive FtpType : Type :=
| FTP_TYPE_FILE
| FTP_TYPE_DIRECTORY
| FTP_TYPE_SYM_LINK
| FTP_TYPE_OTHER.

(** One entry of the nested listing that [ftp.lsr] answers with.
    [entry_children = None] stands for a [children] field that is absent
    (so that [typeof file.children == 'object'] is false). *)
Inductive RemoteEntry : Type :=
  mkRemoteEntry {
    entry_name : string;
    entry_type : FtpType;
    entry_size : Z;
    entry_children : option (list RemoteEntry)
  }.

(** Modelled from the spec: the [FtpFile] class ("DiscoveredFile"), with the
    fields the two classes read and write. *)
Record FtpFile : Type := mkFtpFile {
  basePath : string;
  relativeDirectory : string;
  name : string;
  isSymLink : bool;
  targetData : option RemoteEntry;
  downloading : bool
}.

Definition typeEqb (a b : FtpType) : bool :=
  match a, b with
  | FTP_TYPE_FILE, FTP_TYPE_FILE
  | FTP_TYPE_DIRECTORY, FTP_TYPE_DIRECTORY
  | FTP_TYPE_SYM_LINK, FTP_TYPE_SYM_LINK
  | FTP_TYPE_OTHER, FTP_TYPE_OTHER => true
  | _, _ => false
  end.

(** Modelled from the spec: the constructor [new FtpFile(basePath,
    relativePath, file)]: a file that is not yet resolved and not yet
    downloading. *)
Definition newFtpFile (base relativePath : string) (file : RemoteEntry) : FtpFile :=
  {| basePath := base;
     relativeDirectory := relativePath;
     name := entry_name file;
     isSymLink := typeEqb (entry_type file) FTP_TYPE_SYM_LINK;
     targetData := None;
     downloading := false |}.

(** Modelled from the spec: the identity of a file, "basePath +
    relativeDirectory + name", which is also its absolute path. *)
Definition fullPath (f : FtpFile) : string :=
  (basePath f ++ relativeDirectory f ++ name f)%string.

(** Modelled from the spec: [FtpFile.equals], "two DiscoveredFiles are equal
    iff basePath + relativeDirectory + name match". *)
Definition equals (f g : FtpFile) : bool := String.eqb (fullPath f) (fullPath g).

(** ** Collaborators and configuration

    [FtpFile.appendSlash], [Utils.sanitizeFtpPath] and the comparator
    [FtpFile.sortNewestFirst] (applied through [Array.prototype.sort]) are
    called by the two classes but defined elsewhere; they are taken as
    parameters.  Whatever the comparator, sorting an array in place
    rearranges its elements and neither adds nor drops one. *)
Class Helpers : Type := {
  appendSlash : string -> string;
  sanitizeFtpPath : string -> string;
  sortNewestFirst : list FtpFile -> list FtpFile;
  sortNewestFirst_permutation : forall l, Permutation (sortNewestFirst l) l
}.

(** One element of [config.pathMappings]. *)
Record PathMapping : Type := mkPathMapping {
  remotePath : string;
  localPath : string
}.

(** The fields of the [config] object that the two classes read.
    [pathMappings = None] is a [config.pathMappings] that is not set. *)
Record Config : Type := mkConfig {
  syncRoot : string;
  countMax : Z;
  pathMappings : option (list PathMapping);
  localSyncRoot : string;
  deleteRemoteFiles : bool
}.

(** ** The tree flattener: [FtpScanner.processFilesJSON] *)

Module Flattener.

(** What [logger.info] receives during flattening. *)
Inductive LogLine : Type :=
| LogFound (path : string)
| LogMaxDepth (relativePath : string).

(** The array [outList] that every recursive call pushes to, and the log. *)
Record Acc : Type := mkAcc {
  outList : list FtpFile;
  logged : list LogLine
}.

Definition push (f : FtpFile) (a : Acc) : Acc :=
  {| outList := outList a ++ [f]; logged := logged a |}.

Definition info (l : LogLine) (a : Acc) : Acc :=
  {| outList := outList a; logged := logged a ++ [l] |}.

Section Flatten.
Context `{H : Helpers}.

(** The body of the [for] loop for one [file], with the recursive call
    [this.processFilesJSON(file.children, basePath, depth - 1, newPath,
    outList)] unfolded in place: the callee first normalises its
    [relativePath], returns at once when its depth is 0, and otherwise runs
    the loop over the children.  [relativePath] is already slash-terminated
    here, [depth] is the depth of the enclosing call. *)
Fixpoint processFile (base : string) (depth : Z) (relativePath : string)
    (file : RemoteEntry) (acc : Acc) {struct file} : Acc :=
  match file with
  | mkRemoteEntry fname ftype _ fchildren =>
    if typeEqb ftype FTP_TYPE_SYM_LINK || typeEqb ftype FTP_TYPE_FILE then
      push (newFtpFile base relativePath file)
           (info (LogFound (relativePath ++ fname)%string) acc)
    else if typeEqb ftype FTP_TYPE_DIRECTORY then
      match fchildren with
      | Some kids =>
        let newPath := (relativePath ++ fname)%string in
        let relativePath' := appendSlash newPath in
        if depth - 1 =? 0 then info (LogMaxDepth relativePath') acc
        else
          (fix loop (data : list RemoteEntry) (acc : Acc) {struct data} : Acc :=
             match data with
             | [] => acc
             | f :: rest => loop rest (processFile base (depth - 1) relativePath' f acc)
             end) kids acc
      | None => acc
      end
    else acc
  end.

(** The [for (let file of data)] loop. *)
Fixpoint processFiles (base : string) (depth : Z) (relativePath : string)
    (data : list RemoteEntry) (acc : Acc) : Acc :=
  match data with
  | [] => acc
  | f :: rest =>
    processFiles base depth relativePath rest (processFile base depth relativePath f acc)
  end.

(** [processFilesJSON(data, basePath, depth, relativePath, outList)].  The
    first component is the returned value: [None] is the [undefined] of the
    bare [return] at depth 0, [Some l] the array [outList]. *)
Definition processFilesJSON (data : list RemoteEntry) (base : string) (depth : Z)
    (relativePath : string) (acc : Acc) : option (list FtpFile) * Acc :=
  let relativePath := appendSlash relativePath in
  if depth =? 0 then (None, info (LogMaxDepth relativePath) acc)
  else
    let acc' := processFiles base depth relativePath data acc in
    (Some (outList acc'), acc').

(** *** Reference traversal without a budget

    Every transferable entry of a listing together with its level (the
    number of directories between the listing's root and the entry), and
    every directory with a [children] array together with the level of its
    children.  These follow the shape of the listing only and know nothing
    of a depth budget. *)
Fixpoint leavesOf (base : string) (level : Z) (relativePath : string)
    (file : RemoteEntry) {struct file} : list (Z * FtpFile) :=
  match file with
  | mkRemoteEntry fname ftype _ fchildren =>
    match ftype with
    | FTP_TYPE_SYM_LINK | FTP_TYPE_FILE => [(level, newFtpFile base relativePath file)]
    | FTP_TYPE_DIRECTORY =>
      match fchildren with
      | Some kids =>
        let sub := appendSlash (relativePath ++ fname)%string in
        (fix go (data : list RemoteEntry) : list (Z * FtpFile) :=
           match data with
           | [] => []
           | f :: rest => leavesOf base (level + 1) sub f ++ go rest
           end) kids
      | None => []
      end
    | FTP_TYPE_OTHER => []
    end
  end.

Fixpoint leaves (base : string) (level : Z) (relativePath : string)
    (data : list RemoteEntry) : list (Z * FtpFile) :=
  match data with
  | [] => []
  | f :: rest => leavesOf base level relativePath f ++ leaves base level relativePath rest
  end.

Fixpoint subdirsOf (level : Z) (relativePath : string)
    (file : RemoteEntry) {struct file} : list (Z * string) :=
  match file with
  | mkRemoteEntry fname ftype _ fchildren =>
    match ftype, fchildren with
    | FTP_TYPE_DIRECTORY, Some kids =>
      let sub := appendSlash (relativePath ++ fname)%string in
      (level + 1, sub) ::
      (fix go (data : list RemoteEntry) : list (Z * string) :=
         match data with
         | [] => []
         | f :: rest => subdirsOf (level + 1) sub f ++ go rest
         end) kids
    | _, _ => []
    end
  end.

Fixpoint subdirs (level : Z) (relativePath : string)
    (data : list RemoteEntry) : list (Z * string) :=
  match data with
  | [] => []
  | f :: rest => subdirsOf level relativePath f ++ subdirs level relativePath rest
  end.

Definition isMaxDepth (l : LogLine) : bool :=
  match l with LogMaxDepth _ => true | LogFound _ => false end.

End Flatten.

(** What a call with a positive budget adds to [outList] and to the
    truncation lines of the log. *)
Definition Adds (base : string) (depth level : Z) (rel : string)
    (ls : list (Z * FtpFile)) (ds : list (Z * string)) (acc acc' : Acc) : Prop :=
  outList acc' =
    outList acc ++ map snd (filter (fun p => fst p <? level + depth) ls) /\
  filter isMaxDepth (logged acc') =
    filter isMaxDepth (logged acc) ++
    map (fun p => LogMaxDepth (snd p)) (filter (fun p => fst p =? level + depth) ds).

End Flattener.

(** ** The scanner: class [FtpScanner] *)

Module Scanner.

(** The values that travel as [err]: an error object of the FTP client
    (with its [code]) or a plain string. *)
Inductive Err : Type :=
| FtpError (code : Z) (message : string)
| Message (text : string).

(** What a callback field of the object holds: the function that was handed
    to the constructor, or the arrow function [() => { }] that [finish]
    stores. *)
Inductive Callback : Type :=
| Supplied
| Noop.

(** The closure handed to [ftp.ls] for one symlink.  It captures the file
    being resolved and, through [iterDone], the position of
    [async.mapLimit]: the items still to visit and the results so far
    ([None] is the [undefined] that a failed item leaves in the array). *)
Record LsCallback : Type := mkLsCallback {
  current : FtpFile;
  remaining : list FtpFile;
  results : list (option FtpFile)
}.

(** What the scanner does to the outside world, in order.  The lines it
    writes to the logger and the console are left out. *)
Inductive Effect : Type :=
| SetTimeout (handle : nat) (ms : Z)
| NewJSFtp (conn : nat)
| FtpLsr (conn : nat) (path : string)
| FtpLs (conn : nat) (path : string) (k : LsCallback)
| FtpDestroy (conn : nat)
| ScanCompleteCallback (err : option Err) (files : option (list (option FtpFile)))
| ScanFileFoundCallback (file : FtpFile).

(** The fields of the object, followed by the part of the runtime the
    scanner acts on: the timers that are armed (set, and neither fired nor
    cleared), the next free handle and the effects so far. *)
Record World : Type := mkWorld {
  scanning : bool;
  cancelled : bool;
  timeout : option nat;
  scanCompleteCallbackFunc : Callback;
  scanFileFoundCallbackFunc : Callback;
  ftp : option nat;
  armed : list nat;
  nextHandle : nat;
  effects : list Effect
}.

(** A call either returns or throws; the fields written before a [throw]
    stay written. *)
Inductive Result : Type :=
| Returned (w : World)
| Threw (exn : string) (w : World).

Definition bind (r : Result) (k : World -> Result) : Result :=
  match r with
  | Returned w => k w
  | Threw e w => Threw e w
  end.

Notation "r >>= k" := (bind r k) (at level 50, left associativity).

Definition worldOf (r : Result) : World :=
  match r with Returned w | Threw _ w => w end.

Definition emit (e : Effect) (w : World) : World :=
  mkWorld (scanning w) (cancelled w) (timeout w) (scanCompleteCallbackFunc w)
          (scanFileFoundCallbackFunc w) (ftp w) (armed w) (nextHandle w)
          (effects w ++ [e]).

(** [new FtpScanner(scanCompleteCallback, scanFileFoundCallback)]. *)
Definition constructor : World :=
  mkWorld false false None Supplied Supplied None [] 0%nat [].

(** [this.scanCompleteCallbackFunc(err, files)] and
    [this.scanFileFoundCallbackFunc(file)]: the supplied function is an
    effect, the arrow function does nothing. *)
Definition callScanComplete (err : option Err) (files : option (list (option FtpFile)))
    (w : World) : World :=
  match scanCompleteCallbackFunc w with
  | Supplied => emit (ScanCompleteCallback err files) w
  | Noop => w
  end.

Definition callScanFileFound (file : FtpFile) (w : World) : World :=
  match scanFileFoundCallbackFunc w with
  | Supplied => emit (ScanFileFoundCallback file) w
  | Noop => w
  end.

Definition typeError : string := "TypeError: Cannot read properties of undefined".

(** [finish()]. *)
Definition finish (w : World) : Result :=
  let w1 := mkWorld false (cancelled w) (timeout w) Noop Noop (ftp w)
                    (armed w) (nextHandle w) (effects w) in
  match ftp w1 with
  | Some conn => Returned (emit (FtpDestroy conn) w1)
  | None => Threw typeError w1
  end.

(** [scanComplete(err, files)]. *)
Definition scanComplete (err : option Err) (files : option (list (option FtpFile)))
    (w : World) : Result :=
  finish w >>= fun w1 => Returned (callScanComplete err files w1).

(** [cancel()]. *)
Definition cancel (w : World) : Result :=
  finish (mkWorld (scanning w) true (timeout w) (scanCompleteCallbackFunc w)
                  (scanFileFoundCallbackFunc w) (ftp w) (armed w) (nextHandle w)
                  (effects w)).

(** [timeoutCancelCallback()]. *)
Definition timeoutCancelCallback (w : World) : Result :=
  if negb (scanning w) || cancelled w then Returned w
  else cancel w.

Definition setTargetData (d : RemoteEntry) (f : FtpFile) : FtpFile :=
  mkFtpFile (basePath f) (relativeDirectory f) (name f) (isSymLink f) (Some d)
            (downloading f).

Definition scanCancelled : Err := Message "Scan cancelled".

Definition errorGettingData (file : FtpFile) : Err :=
  Message ("Error getting data for " ++ fullPath file)%string.

(** [updateFileSizes(list, completedCallback)] where [completedCallback] is
    the arrow function of [startScan] that calls [scanComplete].
    [async.mapLimit] with limit 1 visits the items one after the other; the
    first item that reports an error ends the iteration and the final
    callback receives that error and the results array.  [mapLimit] is the
    iteration from a given position; it runs until the list is exhausted, an
    item fails, or a symlink hands control to [ftp.ls]. *)
Fixpoint mapLimit (items : list FtpFile) (done : list (option FtpFile))
    (w : World) : Result :=
  match items with
  | [] => scanComplete None (Some done) w
  | file :: rest =>
    if cancelled w then scanComplete (Some scanCancelled) (Some (done ++ [None])) w
    else if negb (isSymLink file) then
      mapLimit rest (done ++ [Some file]) (callScanFileFound file w)
    else
      match ftp w with
      | Some conn => Returned (emit (FtpLs conn (fullPath file) (mkLsCallback file rest done)) w)
      | None => Threw typeError w
      end
  end.

Definition updateFileSizes (items : list FtpFile) (w : World) : Result :=
  mapLimit items [] w.

(** The callback of [this.ftp.ls(file.fullPath, (err, data) => ...)]. *)
Definition lsCallback (k : LsCallback) (err : option Err) (data : list RemoteEntry)
    (w : World) : Result :=
  if cancelled w then
    scanComplete (Some scanCancelled) (Some (results k ++ [None])) w
  else
    match err, data with
    | None, [d] =>
      let file := setTargetData d (current k) in
      mapLimit (remaining k) (results k ++ [Some file]) (callScanFileFound file w)
    | _, _ =>
      scanComplete (Some (errorGettingData (current k))) (Some (results k ++ [None])) w
    end.

Section Scan.
Context `{H : Helpers} (config : Config).

(** [ftpScanError(err)], the handler of the client's ['error'] and
    ['timeout'] events and of a failed [lsr]. *)
Definition ftpScanError (err : Err) (w : World) : Result :=
  scanComplete (Some err) None w.

(** The callback of [this.ftp.lsr(syncFolder, (err, data) => ...)].
    Sorting an [undefined] list throws. *)
Definition lsrCallback (err : option Err) (data : list RemoteEntry) (w : World) : Result :=
  match err with
  | Some e => ftpScanError e w
  | None =>
    match fst (Flattener.processFilesJSON data (syncRoot config) 20 ""
                 (Flattener.mkAcc [] [])) with
    | Some downloadQueue => updateFileSizes (sortNewestFirst downloadQueue) w
    | None => Threw typeError w
    end
  end.

(** [startScan()]. *)
Definition startScan (w : World) : Result :=
  if scanning w then Threw "startScan called while scanning" w
  else
    let handle := nextHandle w in
    let conn := S handle in
    let w1 := mkWorld true (cancelled w) (Some handle) (scanCompleteCallbackFunc w)
                      (scanFileFoundCallbackFunc w) (Some conn)
                      (handle :: armed w) (S conn) (effects w) in
    Returned (emit (FtpLsr conn (syncRoot config))
             (emit (NewJSFtp conn)
             (emit (SetTimeout handle (5 * 60 * 1000)) w1))).

(** What can happen to a scanner: its two public methods are called, a timer
    fires, the FTP client emits ['error'] or ['timeout'], or the client
    answers a request by calling a closure.  The event carries the closure;
    nothing below depends on when, how often or whether it was handed out. *)
Inductive Event : Type :=
| CallStartScan
| CallCancel
| TimerFires (handle : nat)
| FtpEmits (err : Err)
| LsrReplies (err : option Err) (data : list RemoteEntry)
| LsReplies (k : LsCallback) (err : option Err) (data : list RemoteEntry).

Definition disarm (handle : nat) (w : World) : World :=
  mkWorld (scanning w) (cancelled w) (timeout w) (scanCompleteCallbackFunc w)
          (scanFileFoundCallbackFunc w) (ftp w)
          (filter (fun h => negb (Nat.eqb h handle)) (armed w)) (nextHandle w)
          (effects w).

(** A timer that is not armed does not fire; one that fires is spent. *)
Definition dispatch (e : Event) (w : World) : Result :=
  match e with
  | CallStartScan => startScan w
  | CallCancel => cancel w
  | TimerFires handle =>
    if existsb (Nat.eqb handle) (armed w)
    then timeoutCancelCallback (disarm handle w)
    else Returned w
  | FtpEmits err => ftpScanError err w
  | LsrReplies err data => lsrCallback err data w
  | LsReplies k err data => lsCallback k err data w
  end.

(** A run of the event loop; an exception ends the handler that threw, not
    the object. *)
Fixpoint run (events : list Event) (w : World) : World :=
  match events with
  | [] => w
  | e :: rest => run rest (worldOf (dispatch e w))
  end.

End Scan.

(** The invocations of the two supplied callbacks among the effects. *)
Definition isComplete (e : Effect) : bool :=
  match e with ScanCompleteCallback _ _ => true | _ => false end.

Definition isFileFound (e : Effect) : bool :=
  match e with ScanFileFoundCallback _ => true | _ => false end.

Definition completions (w : World) : list Effect := filter isComplete (effects w).

Definition filesFound (w : World) : list Effect := filter isFileFound (effects w).

(** The timer that [startScan] stored in [this.timeout] is still armed. *)
Definition watchdogArmed (w : World) : bool :=
  match timeout w with
  | Some handle => existsb (Nat.eqb handle) (armed w)
  | None => false
  end.

(** The requests for a single-item listing among the effects. *)
Definition isLs (e : Effect) : bool :=
  match e with FtpLs _ _ _ => true | _ => false end.

(** What [this.ftp.destroy()] adds to the effects of [w]. *)
Definition destroyed (w : World) : list Effect :=
  match ftp w with
  | Some conn => [FtpDestroy conn]
  | None => []
  end.

(** [w'] has the same effects as [w] among those that [P] selects. *)
Definition keeps (P : Effect -> bool) (w w' : World) : Prop :=
  filter P (effects w') = filter P (effects w).

(** A predicate on effects that ignores what every handler emits on its own
    account: timers, connections and requests. *)
Definition ignoresPlumbing (P : Effect -> bool) : Prop :=
  (forall h ms, P (SetTimeout h ms) = false) /\
  (forall c, P (NewJSFtp c) = false) /\
  (forall c p, P (FtpLsr c p) = false) /\
  (forall c p k, P (FtpLs c p k) = false) /\
  (forall c, P (FtpDestroy c) = false).

(** The file-found callback stays silent from [w] on: either [P] does not
    look at its invocations, or the field holds the arrow function. *)
Definition silent (P : Effect -> bool) (w : World) : Prop :=
  (forall f, P (ScanFileFoundCallback f) = false) \/ scanFileFoundCallbackFunc w = Noop.

End Scanner.

(** ** The orchestrator: class [SyncController] *)

Module SyncController.

(** [s.indexOf(pattern)]: the position of the first occurrence, or -1. *)
Definition indexOf (s pattern : string) : Z :=
  match String.index 0 pattern s with
  | Some n => Z.of_nat n
  | None => -1
  end.

(** [s.substring(n)]: what is left of [s] after its first [n] characters. *)
Fixpoint substringFrom (n : nat) (s : string) : string :=
  match n, s with
  | O, _ => s
  | S n', String _ s' => substringFrom n' s'
  | S _, EmptyString => EmptyString
  end.

(** The [FtpFile] objects are shared between the queue, the downloaders and
    the delete queue, and [downloading] is written in place: the objects
    live in [heap] and everything else holds references.  Next to the store
    and the queue, the state records what the orchestrator handed to its
    collaborators: the files given to [remoteDeleteQueue.add], the
    [FtpDownloader]s started (file and local directory) and the
    notifications posted. *)
Record State : Type := mkState {
  heap : nat -> FtpFile;
  nextRef : nat;
  downloadQueue : list nat;
  deleteQueue : list nat;
  transfers : list (nat * string);
  notifications : list string
}.

Definition initial : State :=
  mkState (fun _ => mkFtpFile "" "" "" false None false) 0%nat [] [] [] [].

Definition setDownloading (b : bool) (f : FtpFile) : FtpFile :=
  mkFtpFile (basePath f) (relativeDirectory f) (name f) (isSymLink f) (targetData f) b.

Definition store (r : nat) (f : FtpFile) (h : nat -> FtpFile) : nat -> FtpFile :=
  fun r' => if Nat.eqb r' r then f else h r'.

Definition setQueue (q : list nat) (s : State) : State :=
  mkState (heap s) (nextRef s) q (deleteQueue s) (transfers s) (notifications s).

(** A newly constructed object enters the store. *)
Definition alloc (f : FtpFile) (s : State) : State :=
  mkState (store (nextRef s) f (heap s)) (S (nextRef s)) (downloadQueue s)
          (deleteQueue s) (transfers s) (notifications s).

(** The number of queue entries whose [downloading] flag is set. *)
Definition downloadingCount (s : State) : Z :=
  Z.of_nat (List.length (filter (fun r => downloading (heap s r)) (downloadQueue s))).

(** [removeFileFromQueue(ftpFile, queue)]: after [splice(t, 1)] the loop
    still increments [t], so the element that moved into slot [t] is not
    compared. *)
Fixpoint removeFileFromQueue (ftpFile : nat) (queue : list nat) : list nat :=
  match queue with
  | [] => []
  | x :: rest =>
    if Nat.eqb x ftpFile then
      match rest with
      | [] => []
      | y :: rest' => y :: removeFileFromQueue ftpFile rest'
      end
    else x :: removeFileFromQueue ftpFile rest
  end.

Section Sync.
Context `{H : Helpers} (config : Config).

(** The loop of [getDestinationDirectory] over [config.pathMappings]; [None]
    when the loop ends without a [return]. *)
Fixpoint firstMapping (remoteDirectory : string) (maps : list PathMapping) : option string :=
  match maps with
  | [] => None
  | pathMap :: rest =>
    let pathMapDirectory := appendSlash (remotePath pathMap) in
    if indexOf remoteDirectory pathMapDirectory =? 0 then
      let relativeDirectory :=
        substringFrom (String.length pathMapDirectory) remoteDirectory in
      Some (appendSlash (localPath pathMap) ++ sanitizeFtpPath relativeDirectory)%string
    else firstMapping remoteDirectory rest
  end.

(** [getDestinationDirectory(file)]. *)
Definition getDestinationDirectory (file : FtpFile) : string :=
  let remoteDirectory := relativeDirectory file in
  let fallback :=
    (appendSlash (localSyncRoot config) ++ sanitizeFtpPath (relativeDirectory file))%string in
  match pathMappings config with
  | Some maps =>
    match firstMapping remoteDirectory maps with
    | Some dir => dir
    | None => fallback
    end
  | None => fallback
  end.

(** [fileAlreadyDownloaded(file)]; [existsSync] is the file system at the
    time of the call. *)
Definition fileAlreadyDownloaded (existsSync : string -> bool) (file : FtpFile) : bool :=
  existsSync (appendSlash (getDestinationDirectory file) ++ sanitizeFtpPath (name file))%string.

(** [addToRemoteDeleteQueue(file)]. *)
Definition addToRemoteDeleteQueue (file : nat) (s : State) : State :=
  if negb (deleteRemoteFiles config) then s
  else mkState (heap s) (nextRef s) (downloadQueue s) (deleteQueue s ++ [file])
               (transfers s) (notifications s).

Definition postNotification (message : string) (s : State) : State :=
  mkState (heap s) (nextRef s) (downloadQueue s) (deleteQueue s) (transfers s)
          (notifications s ++ [message]).

(** The [for] loop of [getNextFileToDownload], with its two locals. *)
Fixpoint scanQueue (h : nat -> FtpFile) (queue : list nat) (count : Z)
    (nextFile : option nat) : Z * option nat :=
  match queue with
  | [] => (count, nextFile)
  | file :: rest =>
    if negb (downloading (h file)) then
      scanQueue h rest count
        (match nextFile with None => Some file | Some _ => nextFile end)
    else scanQueue h rest (count + 1) nextFile
  end.

(** [getNextFileToDownload()]; [None] is [null]. *)
Definition getNextFileToDownload (s : State) : option nat :=
  let (count, nextFile) := scanQueue (heap s) (downloadQueue s) 0 None in
  if count <? countMax config then nextFile else None.

(** Modelled from the spec: [new FtpDownloader(file,
    localDirectory).start(callback)], of which the spec says that
    [downloading] is "true exactly while a transfer for this file is in
    flight": starting a transfer sets the flag of the shared object, and the
    transfer ends later with a call of [downloadDone]. *)
Definition startDownloader (file : nat) (localDirectory : string) (s : State) : State :=
  mkState (store file (setDownloading true (heap s file)) (heap s)) (nextRef s)
          (downloadQueue s) (deleteQueue s) (transfers s ++ [(file, localDirectory)])
          (notifications s).

(** [downloadNextInQueue()].  The [while] loop runs at most [fuel] times;
    [None] means the fuel ran out before [getNextFileToDownload] answered
    [null]. *)
Fixpoint downloadNextInQueue (fuel : nat) (s : State) : option State :=
  match getNextFileToDownload s with
  | None => Some s
  | Some file =>
    match fuel with
    | O => None
    | S fuel' =>
      let localDirectory := getDestinationDirectory (heap s file) in
      downloadNextInQueue fuel' (startDownloader file localDirectory s)
    end
  end.

(** [scannerFileFound(file)]. *)
Definition scannerFileFound (fuel : nat) (existsSync : string -> bool) (file : nat)
    (s : State) : option State :=
  if fileAlreadyDownloaded existsSync (heap s file) then
    Some (addToRemoteDeleteQueue file s)
  else if negb (existsb (fun otherFile => equals (heap s file) (heap s otherFile))
                        (downloadQueue s)) then
    downloadNextInQueue fuel (setQueue (downloadQueue s ++ [file]) s)
  else Some s.

(** [downloadDone(err, file)]; [err = true] is a truthy [err]. *)
Definition downloadDone (fuel : nat) (err : bool) (file : nat) (s : State) : option State :=
  let s1 := if negb err then addToRemoteDeleteQueue file s else s in
  let s2 :=
    if negb err
    then postNotification ("Download completed " ++ name (heap s1 file))%string s1
    else s1 in
  let s3 := setQueue (removeFileFromQueue file (downloadQueue s2)) s2 in
  downloadNextInQueue fuel s3.

(** The two ways into the orchestrator: the scanner delivers a file object
    it has constructed (the file system being what it is at that moment),
    or a downloader reports the end of a transfer. *)
Inductive Event : Type :=
| FileFound (existsSync : string -> bool) (file : FtpFile)
| DownloadDone (err : bool) (file : nat).

(** The scanner constructs its objects with [new FtpFile] and touches only
    their [targetData]: a delivered object is not downloading. *)
Definition asConstructed (e : Event) : bool :=
  match e with
  | FileFound _ file => negb (downloading file)
  | DownloadDone _ _ => true
  end.

Definition handle (fuel : nat) (e : Event) (s : State) : option State :=
  match e with
  | FileFound existsSync file =>
    scannerFileFound fuel existsSync (nextRef s) (alloc file s)
  | DownloadDone err file => downloadDone fuel err file s
  end.

(** The states the orchestrator can be in between two events. *)
Inductive reachable : State -> Prop :=
| reachable_initial : reachable initial
| reachable_handle : forall s e fuel s',
    reachable s -> asConstructed e = true -> handle fuel e s = Some s' ->
    reachable s'.

(** The events of a list handled one after the other, each with the same
    fuel; [None] when an event is not a delivery of a constructed object or
    the fuel runs out. *)
Fixpoint handleAll (fuel : nat) (events : list Event) (s : State) : option State :=
  match events with
  | [] => Some s
  | e :: rest =>
    if asConstructed e then
      match handle fuel e s with
      | Some s' => handleAll fuel rest s'
      | None => None
      end
    else None
  end.

End Sync.

(** The identities present in the queue, in queue order. *)
Definition identities (s : State) : list string :=
  map (fun r => fullPath (heap s r)) (downloadQueue s).

(** The queue entries that are not downloading, in queue order, and their
    number. *)
Definition waitingFiles (s : State) : list nat :=
  filter (fun r => negb (downloading (heap s r))) (downloadQueue s).

Definition waiting (s : State) : nat := List.length (waitingFiles s).

(** What the orchestrator maintains: the queued objects have been
    constructed, no two of them have the same identity, and at most [cap]
    of them are downloading. *)
Definition consistent (cap : Z) (s : State) : Prop :=
  NoDup (identities s) /\
  Forall (fun r => Nat.lt r (nextRef s)) (downloadQueue s) /\
  downloadingCount s <= cap.

End SyncController.

(** ** Concrete inputs

    The helpers as the spec describes them, a configuration and two
    listings, on which the model is run in the examples below.  The general
    statements hold for every implementation of the helpers. *)

Module Examples.
Import Scanner.

Local Open Scope string_scope.

Fixpoint endsWithSlash (s : string) : bool :=
  match s with
  | EmptyString => false
  | String c EmptyString => Ascii.eqb c "/"
  | String _ rest => endsWithSlash rest
  end.

(** Modelled from the spec: [FtpFile.appendSlash], the "trailing-slash
    normalization" that leaves a path "always trailing-slash terminated": a
    path that does not end in a slash gets one. *)
Definition slashTerminated (s : string) : string :=
  if endsWithSlash s then s else s ++ "/".

(** The characters [\ : * ? < > |] and the double quote, by code. *)
Definition unsafe (c : ascii) : bool :=
  existsb (Nat.eqb (nat_of_ascii c)) [92; 58; 42; 63; 60; 62; 124; 34]%nat.

(** Modelled from the spec: [Utils.sanitizeFtpPath], "filesystem-unsafe
    characters sanitized out of every path segment": the unsafe characters
    are dropped from each segment, and the slashes between the segments stay
    where they are. *)
Fixpoint withoutUnsafe (s : string) : string :=
  match s with
  | EmptyString => EmptyString
  | String c rest =>
    if unsafe c then withoutUnsafe rest else String c (withoutUnsafe rest)
  end.

Definition helpers : Helpers :=
  {| appendSlash := slashTerminated;
     sanitizeFtpPath := withoutUnsafe;
     sortNewestFirst := fun l => l;
     sortNewestFirst_permutation := fun l => Permutation_refl l |}.

(** The configuration of the destination example: one mapping from [/tv] to
    [/dest/tv], default root [/dest/default], two transfers at a time. *)
Definition config : Config :=
  mkConfig "/sync" 2 (Some [mkPathMapping "/tv" "/dest/tv"]) "/dest/default" true.


Definition link (n : string) : RemoteEntry := mkRemoteEntry n FTP_TYPE_SYM_LINK 0 None.

Definition plain (n : string) : RemoteEntry := mkRemoteEntry n FTP_TYPE_FILE 0 None.

Definition directory (n : string) (kids : list RemoteEntry) : RemoteEntry :=
  mkRemoteEntry n FTP_TYPE_DIRECTORY 0 (Some kids).

(** A listing three levels deep. *)
Definition nested : list RemoteEntry :=
  [plain "top.avi";
   directory "tv" [link "s01e01"; directory "extras" [link "deep"]]].

(** A listing of five symlinks and the [FtpFile] objects made from it. *)
Definition fiveLinks : list RemoteEntry :=
  [link "a"; link "b"; link "c"; link "d"; link "e"].

Definition found (n : string) : FtpFile := newFtpFile "/sync" "/" (link n).

Definition target : RemoteEntry := plain "target".

Definition resolved (n : string) : FtpFile := setTargetData target (found n).

(** The closures that [updateFileSizes] hands to [ftp.ls] for the first
    three links. *)
Definition lsA : LsCallback :=
  mkLsCallback (found "a") [found "b"; found "c"; found "d"; found "e"] [].

Definition lsB : LsCallback :=
  mkLsCallback (found "b") [found "c"; found "d"; found "e"] [Some (resolved "a")].

Definition lsC : LsCallback :=
  mkLsCallback (found "c") [found "d"; found "e"]
               [Some (resolved "a"); Some (resolved "b")].

(** A scan that has emitted two of its five files and waits for the third
    to be resolved. *)
Definition twoOfFive : list Event :=
  [CallStartScan; LsrReplies None fiveLinks;
   LsReplies lsA None [target]; LsReplies lsB None [target]].

(** Three different files are found, none of them on disk; then the same
    three are found again. *)
Definition nowhere (path : string) : bool := false.

Definition threeFound : list SyncController.Event :=
  [SyncController.FileFound nowhere (resolved "a");
   SyncController.FileFound nowhere (resolved "b");
   SyncController.FileFound nowhere (resolved "c")].

Definition afterEvents (events : list SyncController.Event) : SyncController.State :=
  match @SyncController.handleAll helpers config 4 events SyncController.initial with
  | Some s => s
  | None => SyncController.initial
  end.


End Examples.

(** ** The iteration with its completed callback

    [updateFileSizes(list, completedCallback)] takes the function to call
    at the end as a parameter; [startScan] passes the arrow function that
    calls [scanComplete].  Here the parameter is kept, so that what the
    iteration hands to it can be told apart from what that function then
    does. *)

Module Iteration.
Import Scanner.

Definition CompletedCallback : Type :=
  option Err -> list (option FtpFile) -> World -> Result.

(** [async.mapLimit(list, 1, iteratee, final)] from a given position, where
    [final] calls [completedCallback(err, results)]. *)
Fixpoint mapLimitTo (completedCallback : CompletedCallback) (items : list FtpFile)
    (done : list (option FtpFile)) (w : World) : Result :=
  match items with
  | [] => completedCallback None done w
  | file :: rest =>
    if cancelled w then completedCallback (Some scanCancelled) (done ++ [None]) w
    else if negb (isSymLink file) then
      mapLimitTo completedCallback rest (done ++ [Some file]) (callScanFileFound file w)
    else
      match ftp w with
      | Some conn => Returned (emit (FtpLs conn (fullPath file) (mkLsCallback file rest done)) w)
      | None => Threw typeError w
      end
  end.

Definition updateFileSizesTo (completedCallback : CompletedCallback)
    (items : list FtpFile) (w : World) : Result :=
  mapLimitTo completedCallback items [] w.

(** The callback of [this.ftp.ls(file.fullPath, (err, data) => ...)]. *)
Definition lsCallbackTo (completedCallback : CompletedCallback) (k : LsCallback)
    (err : option Err) (data : list RemoteEntry) (w : World) : Result :=
  if cancelled w then completedCallback (Some scanCancelled) (results k ++ [None]) w
  else
    match err, data with
    | None, [d] =>
      let file := setTargetData d (current k) in
      mapLimitTo completedCallback (remaining k) (results k ++ [Some file])
                 (callScanFileFound file w)
    | _, _ =>
      completedCallback (Some (errorGettingData (current k))) (results k ++ [None]) w
    end.

(** The arrow function [(err, updatedQueue) => { this.scanComplete(err,
    updatedQueue); }] that [startScan] passes. *)
Definition startScanCompleted : CompletedCallback :=
  fun err updatedQueue w => scanComplete err (Some updatedQueue) w.

(** A probe for the iteration: a completed callback that records the
    arguments it is called with as a completion, where [startScanCompleted]
    goes through [scanComplete]. *)
Definition reporting : CompletedCallback :=
  fun err updatedQueue w => Returned (emit (ScanCompleteCallback err (Some updatedQueue)) w).

End Iteration.

(** ** A client that answers every request

    The scanner hands [ftp.ls] one closure at a time and waits.  A client
    that always answers with exactly one entry drives a scan to its end. *)

Module Client.
Import Scanner.

(** The closure the scanner is waiting on: that of the effect issued last,
    when that effect is a request for a single-item listing. *)
Definition pending (w : World) : option LsCallback :=
  match rev (effects w) with
  | FtpLs _ _ k :: _ => Some k
  | _ => None
  end.

(** The client answers the pending request with the entry [target file],
    at most [fuel] times. *)
Fixpoint answerAll (target : FtpFile -> RemoteEntry) (fuel : nat) (w : World) : World :=
  match fuel with
  | O => w
  | S fuel' =>
    match pending w with
    | Some k =>
      answerAll target fuel' (worldOf (lsCallback k None [target (current k)] w))
    | None => w
    end
  end.

(** A file as the file-found callback receives it from such a client. *)
Definition resolve (target : FtpFile -> RemoteEntry) (f : FtpFile) : FtpFile :=
  if isSymLink f then setTargetData (target f) f else f.

Definition symlinks (items : list FtpFile) : nat :=
  List.length (filter isSymLink items).

Definition lsCount (w : World) : nat := List.length (filter isLs (effects w)).

(** The file-found callback of [w] is the supplied one, the session is not
    cancelled and its connection is open. *)
Definition live (conn : nat) (w : World) : Prop :=
  cancelled w = false /\ scanFileFoundCallbackFunc w = Supplied /\ ftp w = Some conn.

Section Order.
Context `{H : Helpers} (config : Config).

(** The list that the listing callback hands to [updateFileSizes]: the
    flattened listing, sorted. *)
Definition scanOrder (data : list RemoteEntry) : list FtpFile :=
  match fst (Flattener.processFilesJSON data (syncRoot config) 20 ""
               (Flattener.mkAcc [] [])) with
  | Some downloadQueue => sortNewestFirst downloadQueue
  | None => []
  end.

End Order.

End Client.

(** ** The rest of the orchestrator *)

Module Orchestrator.
Import SyncController.

(** [scannerShouldProcessFile(file)]. *)
Definition scannerShouldProcessFile (file : FtpFile) (s : State) : bool :=
  if existsb (fun otherFile => equals file (heap s otherFile)) (downloadQueue s)
  then false else true.

(** The [downloading] flags of the queue entries, in queue order. *)
Definition flags (s : State) : list bool :=
  map (fun r => downloading (heap s r)) (downloadQueue s).

(** No entry is downloading behind one that is not. *)
Fixpoint downloadingFirst (l : list bool) : bool :=
  match l with
  | [] => true
  | true :: rest => downloadingFirst rest
  | false :: rest => forallb negb rest
  end.

(** The files for which a downloader was started, in order. *)
Definition started (s : State) : list nat := map fst (transfers s).

Section Started.
Context `{H : Helpers} (config : Config).

(** No file has two downloaders; every downloader was started for a
    constructed file, with that file's destination directory; and a queue
    entry is marked downloading exactly when a downloader was started for
    it. *)
Definition transfersMatch (s : State) : Prop :=
  NoDup (started s) /\
  (forall r dir, In (r, dir) (transfers s) ->
     Nat.lt r (nextRef s) /\
     dir = getDestinationDirectory config (heap s r)) /\
  (forall r, In r (downloadQueue s) ->
     (downloading (heap s r) = true <-> In r (started s))).

End Started.

End Orchestrator.

(** * Properties *)

(** ** The tree flattener *)

Module FlattenerFacts.
Import Flattener.

(** Induction over a listing that reaches into the [children] arrays. *)
Lemma RemoteEntry_nested_ind (P : RemoteEntry -> Prop) :
  (forall n t sz, P (mkRemoteEntry n t sz None)) ->
  (forall n t sz kids, Forall P kids -> P (mkRemoteEntry n t sz (Some kids))) ->
  forall e, P e.
Proof.
  intros Hleaf Hnode.
  fix IH 1.
  intros [n t sz [kids|]].
  - apply Hnode.
    induction kids as [|k kids IHkids]; constructor.
    + apply IH.
    + exact IHkids.
  - apply Hleaf.
Qed.

Section Facts.
Context `{H : Helpers}.

Lemma processFile_dir base depth rel n sz kids acc :
  processFile base depth rel (mkRemoteEntry n FTP_TYPE_DIRECTORY sz (Some kids)) acc =
  if depth - 1 =? 0 then info (LogMaxDepth (appendSlash (rel ++ n)%string)) acc
  else processFiles base (depth - 1) (appendSlash (rel ++ n)%string) kids acc.
Proof.
  cbn [processFile typeEqb orb].
  destruct (depth - 1 =? 0); [reflexivity|].
  generalize acc. induction kids as [|k kids IHk]; intros a; cbn [processFiles].
  - reflexivity.
  - apply IHk.
Qed.

(** The unfolded recursive call is the call of [processFilesJSON] that the
    source makes, whose returned value the loop discards. *)
Lemma processFile_dir_call base depth rel n sz kids acc :
  processFile base depth rel (mkRemoteEntry n FTP_TYPE_DIRECTORY sz (Some kids)) acc =
  snd (processFilesJSON kids base (depth - 1) (rel ++ n)%string acc).
Proof.
  rewrite processFile_dir. unfold processFilesJSON.
  now destruct (depth - 1 =? 0).
Qed.

Lemma leavesOf_dir base level rel n sz kids :
  leavesOf base level rel (mkRemoteEntry n FTP_TYPE_DIRECTORY sz (Some kids)) =
  leaves base (level + 1) (appendSlash (rel ++ n)%string) kids.
Proof.
  cbn [leavesOf].
  induction kids as [|k kids IHk]; cbn [leaves]; [reflexivity|].
  now rewrite IHk.
Qed.

Lemma subdirsOf_dir level rel n sz kids :
  subdirsOf level rel (mkRemoteEntry n FTP_TYPE_DIRECTORY sz (Some kids)) =
  (level + 1, appendSlash (rel ++ n)%string) ::
  subdirs (level + 1) (appendSlash (rel ++ n)%string) kids.
Proof.
  cbn [subdirsOf]. f_equal.
  induction kids as [|k kids IHk]; cbn [subdirs]; [reflexivity|].
  now rewrite IHk.
Qed.

(** Levels only grow on the way down. *)
Lemma leavesOf_level base file :
  forall level rel p, In p (leavesOf base level rel file) -> level <= fst p.
Proof.
  induction file as [n t sz|n t sz kids IH] using RemoteEntry_nested_ind;
    intros level rel p Hin.
  - destruct t; cbn in Hin; try contradiction;
      destruct Hin as [<-|[]]; cbn; lia.
  - destruct t; try (cbn in Hin; try contradiction; destruct Hin as [<-|[]]; cbn; lia).
    rewrite leavesOf_dir in Hin.
    revert Hin. induction IH as [|k kids Hk _ IHkids]; cbn [leaves]; intros Hin.
    + contradiction.
    + apply in_app_or in Hin. destruct Hin as [Hin|Hin].
      * apply Hk in Hin. lia.
      * now apply IHkids.
Qed.

Lemma leaves_level base data :
  forall level rel p, In p (leaves base level rel data) -> level <= fst p.
Proof.
  induction data as [|f data IH]; cbn [leaves]; intros level rel p Hin.
  - contradiction.
  - apply in_app_or in Hin. destruct Hin as [Hin|Hin].
    + eapply leavesOf_level; eauto.
    + eapply IH; eauto.
Qed.

Lemma subdirsOf_level file :
  forall level rel p, In p (subdirsOf level rel file) -> level + 1 <= fst p.
Proof.
  induction file as [n t sz|n t sz kids IH] using RemoteEntry_nested_ind;
    intros level rel p Hin.
  - destruct t; cbn in Hin; contradiction.
  - destruct t; try (cbn in Hin; contradiction).
    rewrite subdirsOf_dir in Hin. destruct Hin as [<-|Hin]; [cbn; lia|].
    revert Hin. induction IH as [|k kids Hk _ IHkids]; cbn [subdirs]; intros Hin.
    + contradiction.
    + apply in_app_or in Hin. destruct Hin as [Hin|Hin].
      * apply Hk in Hin. lia.
      * now apply IHkids.
Qed.

Lemma subdirs_level data :
  forall level rel p, In p (subdirs level rel data) -> level + 1 <= fst p.
Proof.
  induction data as [|f data IH]; cbn [subdirs]; intros level rel p Hin.
  - contradiction.
  - apply in_app_or in Hin. destruct Hin as [Hin|Hin].
    + eapply subdirsOf_level; eauto.
    + eapply IH; eauto.
Qed.

Lemma filter_none {A} (f : A -> bool) (l : list A) :
  (forall x, In x l -> f x = false) -> filter f l = [].
Proof.
  induction l as [|a l IH]; cbn; intros Hall; [reflexivity|].
  rewrite (Hall a (or_introl eq_refl)). apply IH. intros x Hx. apply Hall. now right.
Qed.


Lemma processFile_adds base file :
  forall depth level rel acc, 0 < depth ->
  Adds base depth level rel (leavesOf base level rel file) (subdirsOf level rel file)
       acc (processFile base depth rel file acc).
Proof.
  induction file as [n t sz|n t sz kids IH] using RemoteEntry_nested_ind;
    intros depth level rel acc Hpos; unfold Adds.
  - destruct t; cbn; rewrite ?filter_app, ?app_nil_r; cbn;
      try (replace (level <? level + depth) with true by (symmetry; apply Z.ltb_lt; lia));
      cbn; rewrite ?app_nil_r; auto.
  - destruct t;
      try (cbn; rewrite ?filter_app, ?app_nil_r; cbn;
           try (replace (level <? level + depth) with true
                  by (symmetry; apply Z.ltb_lt; lia));
           cbn; rewrite ?app_nil_r; auto; fail).
    rewrite processFile_dir, leavesOf_dir, subdirsOf_dir.
    set (sub := appendSlash (rel ++ n)%string).
    destruct (Z.eqb_spec (depth - 1) 0) as [Hz|Hnz].
    + (* the budget ends here: nothing below is kept, one line is logged *)
      split.
      * rewrite filter_none; [cbn; now rewrite app_nil_r|].
        intros p Hp. apply leaves_level in Hp. apply Z.ltb_ge. lia.
      * cbn [filter fst]. replace (level + 1 =? level + depth) with true
          by (symmetry; apply Z.eqb_eq; lia).
        rewrite (filter_none (fun p : Z * string => fst p =? level + depth)).
        -- cbn. rewrite filter_app. reflexivity.
        -- intros p Hp. apply subdirs_level in Hp. apply Z.eqb_neq. lia.
    + cbn [filter fst]. replace (level + 1 =? level + depth) with false
        by (symmetry; apply Z.eqb_neq; lia).
      assert (Hd : 0 < depth - 1) by lia.
      clear Hnz. revert acc.
      induction IH as [|k kids Hk _ IHkids]; intros acc; cbn [processFiles leaves subdirs].
      * cbn. now rewrite !app_nil_r.
      * destruct (IHkids (processFile base (depth - 1) sub k acc)) as [Ho Hl].
        destruct (Hk (depth - 1) (level + 1) sub acc Hd) as [Ho1 Hl1].
        replace (level + 1 + (depth - 1)) with (level + depth) in * by lia.
        split.
        -- rewrite Ho, Ho1, filter_app, map_app, app_assoc. reflexivity.
        -- rewrite Hl, Hl1, filter_app, map_app, app_assoc. reflexivity.
Qed.

Lemma processFiles_adds base data :
  forall depth level rel acc, 0 < depth ->
  Adds base depth level rel (leaves base level rel data) (subdirs level rel data)
       acc (processFiles base depth rel data acc).
Proof.
  induction data as [|f data IH]; intros depth level rel acc Hpos;
    cbn [processFiles leaves subdirs].
  - unfold Adds. cbn. now rewrite !app_nil_r.
  - destruct (IH depth level rel (processFile base depth rel f acc) Hpos) as [Ho Hl].
    destruct (processFile_adds base f depth level rel acc Hpos) as [Ho1 Hl1].
    split.
    + rewrite Ho, Ho1, filter_app, map_app, app_assoc. reflexivity.
    + rewrite Hl, Hl1, filter_app, map_app, app_assoc. reflexivity.
Qed.

(** C9.  For every nested listing and every positive depth budget,
    [processFilesJSON] returns a list (it does not fail and does not return
    [undefined]); the list holds, in listing order, exactly the transferable
    entries that have fewer than [depth] directories above them, so nothing
    from below the budget is in it; and the log has one "maximum depth" line
    for each directory at which the budget ran out. *)
Theorem processFilesJSON_respects_depth data base depth rel :
  0 < depth ->
  let top := appendSlash rel in
  let r := processFilesJSON data base depth rel (mkAcc [] []) in
  fst r = Some (map snd (filter (fun p => fst p <? depth) (leaves base 0 top data))) /\
  (forall f, fst r = Some f ->
     forall x, In x f -> exists level, 0 <= level < depth /\ In (level, x) (leaves base 0 top data)) /\
  filter isMaxDepth (logged (snd r)) =
    map (fun p => LogMaxDepth (snd p)) (filter (fun p => fst p =? depth) (subdirs 0 top data)).
Proof.
  intros Hpos top r.
  destruct (processFiles_adds base data depth 0 top (mkAcc [] []) Hpos) as [Ho Hl].
  cbn [outList logged filter app] in Ho, Hl. rewrite Z.add_0_l in Ho, Hl.
  assert (Hr : r = (Some (outList (processFiles base depth top data (mkAcc [] []))),
                    processFiles base depth top data (mkAcc [] []))).
  { unfold r, processFilesJSON. fold top.
    destruct (Z.eqb_spec depth 0) as [E|_]; [lia | reflexivity]. }
  rewrite Hr. cbn [fst snd]. repeat split.
  - now rewrite Ho.
  - intros f Hf x Hx. injection Hf as <-. rewrite Ho in Hx.
    apply in_map_iff in Hx. destruct Hx as [[level y] [Hy Hin]]. cbn in Hy. subst y.
    apply filter_In in Hin. destruct Hin as [Hin Hlt]. cbn in Hlt.
    exists level. split; [|exact Hin].
    apply leaves_level in Hin. cbn in Hin. apply Z.ltb_lt in Hlt. lia.
  - exact Hl.
Qed.

End Facts.

Lemma processFilesJSON_respects_depth_witness :
  0 < 2 /\
  fst (@processFilesJSON Examples.helpers Examples.nested "/sync" 2 "" (mkAcc [] [])) =
    Some [newFtpFile "/sync" "/" (Examples.plain "top.avi");
          newFtpFile "/sync" "/tv/" (Examples.link "s01e01")] /\
  filter isMaxDepth
    (logged (snd (@processFilesJSON Examples.helpers Examples.nested "/sync" 2 ""
                    (mkAcc [] [])))) = [LogMaxDepth "/tv/extras/"].
Proof.
  assert (Hpos : 0 < 2) by lia.
  destruct (@processFilesJSON_respects_depth Examples.helpers Examples.nested
              "/sync" 2 "" Hpos) as (Hout & _ & Hlog).
  split; [exact Hpos|]. split.
  - rewrite Hout. reflexivity.
  - rewrite Hlog. reflexivity.
Defined.

End FlattenerFacts.

(** ** The scanner *)

Module ScannerFacts.
Import Scanner.

Lemma finish_effects w : effects (worldOf (finish w)) = effects w ++ destroyed w.
Proof.
  unfold finish, destroyed. cbn. destruct (ftp w); cbn; [reflexivity|].
  now rewrite app_nil_r.
Qed.

Lemma finish_fields w :
  let w' := worldOf (finish w) in
  scanning w' = false /\ cancelled w' = cancelled w /\ timeout w' = timeout w /\
  armed w' = armed w /\ ftp w' = ftp w /\
  scanCompleteCallbackFunc w' = Noop /\ scanFileFoundCallbackFunc w' = Noop.
Proof.
  unfold finish. cbn. destruct (ftp w) eqn:E; cbn; rewrite ?E; repeat split.
Qed.

(** Before any teardown the callback field holds the supplied function, and
    calling it is an effect. *)
Lemma callScanComplete_constructor err files :
  completions (callScanComplete err files constructor) =
  [ScanCompleteCallback err files].
Proof. reflexivity. Qed.

(** [scanComplete] calls [finish] before it calls the callback field, so the
    function it calls is always the arrow function that [finish] has just
    stored: the call does nothing, whatever [err] and [files] are. *)
Lemma scanComplete_is_finish err files w : scanComplete err files w = finish w.
Proof.
  unfold scanComplete, finish. cbn. destruct (ftp w); reflexivity.
Qed.

Lemma cancel_fields w :
  let w' := worldOf (cancel w) in
  scanning w' = false /\ cancelled w' = true /\ timeout w' = timeout w /\
  armed w' = armed w /\ ftp w' = ftp w /\ effects w' = effects w ++ destroyed w /\
  scanCompleteCallbackFunc w' = Noop /\ scanFileFoundCallbackFunc w' = Noop.
Proof.
  unfold cancel, finish, destroyed. cbn. destruct (ftp w) eqn:E; cbn; rewrite ?E, ?app_nil_r;
    repeat split.
Qed.

Lemma timeoutCancelCallback_guard w :
  scanning w = false \/ cancelled w = true -> timeoutCancelCallback w = Returned w.
Proof.
  unfold timeoutCancelCallback. intros [-> | ->]; cbn; [reflexivity|].
  now rewrite orb_true_r.
Qed.


Lemma keeps_refl P w : keeps P w w.
Proof. reflexivity. Qed.

Lemma keeps_trans P w1 w2 w3 : keeps P w1 w2 -> keeps P w2 w3 -> keeps P w1 w3.
Proof. unfold keeps. congruence. Qed.

Lemma keeps_emit P e w : P e = false -> keeps P w (emit e w).
Proof.
  unfold keeps, emit. cbn. intros He. rewrite filter_app. cbn. rewrite He.
  apply app_nil_r.
Qed.

Lemma keeps_finish P w : (forall c, P (FtpDestroy c) = false) -> keeps P w (worldOf (finish w)).
Proof.
  intros HP. unfold keeps. rewrite finish_effects, filter_app.
  unfold destroyed. destruct (ftp w); cbn; rewrite ?HP; apply app_nil_r.
Qed.

Lemma keeps_callScanFileFound P file w :
  P (ScanFileFoundCallback file) = false \/ scanFileFoundCallbackFunc w = Noop ->
  keeps P w (callScanFileFound file w).
Proof.
  unfold callScanFileFound. intros [HP|HN].
  - destruct (scanFileFoundCallbackFunc w); [now apply keeps_emit | apply keeps_refl].
  - rewrite HN. apply keeps_refl.
Qed.


Lemma isComplete_plumbing : ignoresPlumbing isComplete.
Proof. repeat split. Qed.

Lemma isFileFound_plumbing : ignoresPlumbing isFileFound.
Proof. repeat split. Qed.


Lemma silent_emit P e w : silent P w -> silent P (emit e w).
Proof. unfold silent. cbn. tauto. Qed.

Lemma silent_callScanFileFound P f w : silent P w -> silent P (callScanFileFound f w).
Proof.
  unfold callScanFileFound. intros Hs.
  destruct (scanFileFoundCallbackFunc w) eqn:E; [now apply silent_emit | assumption].
Qed.

Lemma silent_finish P w : silent P (worldOf (finish w)).
Proof. right. apply finish_fields. Qed.

Lemma mapLimit_keeps P items :
  ignoresPlumbing P ->
  forall done w, silent P w ->
  keeps P w (worldOf (mapLimit items done w)) /\ silent P (worldOf (mapLimit items done w)).
Proof.
  intros HP. pose proof HP as (_ & _ & _ & Hls & Hd).
  induction items as [|file rest IH]; intros done w Hs; cbn [mapLimit].
  - rewrite scanComplete_is_finish. split; [now apply keeps_finish | apply silent_finish].
  - destruct (cancelled w).
    + rewrite scanComplete_is_finish. split; [now apply keeps_finish | apply silent_finish].
    + destruct (isSymLink file); cbn [negb].
      * destruct (ftp w); cbn [worldOf].
        -- split; [now apply keeps_emit | now apply silent_emit].
        -- split; [apply keeps_refl | assumption].
      * destruct (IH (done ++ [Some file]) (callScanFileFound file w)) as [Hk Hs'].
        -- now apply silent_callScanFileFound.
        -- split; [|assumption].
           eapply keeps_trans; [|exact Hk].
           apply keeps_callScanFileFound. destruct Hs as [Hs|Hs]; auto.
Qed.

Lemma lsCallback_keeps P k err data w :
  ignoresPlumbing P -> silent P w ->
  keeps P w (worldOf (lsCallback k err data w)) /\
  silent P (worldOf (lsCallback k err data w)).
Proof.
  intros HP Hs. pose proof HP as (_ & _ & _ & _ & Hd).
  unfold lsCallback.
  assert (Hfin : forall e f,
    keeps P w (worldOf (scanComplete e f w)) /\ silent P (worldOf (scanComplete e f w))).
  { intros e f. rewrite scanComplete_is_finish.
    split; [now apply keeps_finish | apply silent_finish]. }
  destruct (cancelled w); [apply Hfin|].
  destruct err as [e|]; [apply Hfin|].
  destruct data as [|d [|d' data]]; try apply Hfin.
  set (file := setTargetData d (current k)).
  destruct (mapLimit_keeps P (remaining k) HP (results k ++ [Some file])
              (callScanFileFound file w)) as [Hk Hs'].
  - now apply silent_callScanFileFound.
  - split; [|assumption].
    eapply keeps_trans; [|exact Hk].
    apply keeps_callScanFileFound. destruct Hs as [Hs|Hs]; auto.
Qed.

Section Facts.
Context `{H : Helpers} (config : Config).

Lemma dispatch_keeps P e w :
  ignoresPlumbing P -> silent P w ->
  keeps P w (worldOf (dispatch config e w)) /\ silent P (worldOf (dispatch config e w)).
Proof.
  intros HP Hs. pose proof HP as (Hst & Hnew & Hlsr & _ & Hd).
  destruct e as [| |h|err|err data|k err data]; cbn [dispatch].
  - unfold startScan. destruct (scanning w); cbn [worldOf]; [split; [apply keeps_refl|assumption]|].
    split.
    + unfold keeps. cbn. rewrite !filter_app. cbn. rewrite Hst, Hnew, Hlsr.
      now rewrite !app_nil_r.
    + exact Hs.
  - unfold cancel. split; [|apply silent_finish].
    exact (keeps_finish P _ Hd).
  - destruct (existsb (Nat.eqb h) (armed w)); [|split; [apply keeps_refl|assumption]].
    assert (Hk : keeps P w (disarm h w)) by reflexivity.
    assert (Hs' : silent P (disarm h w)) by exact Hs.
    revert Hk Hs'. generalize (disarm h w). intros w' Hk Hs'.
    unfold timeoutCancelCallback.
    destruct (negb (scanning w') || cancelled w'); cbn [worldOf].
    + split; assumption.
    + unfold cancel. split; [|apply silent_finish].
      eapply keeps_trans; [exact Hk|]. exact (keeps_finish P _ Hd).
  - unfold ftpScanError. rewrite scanComplete_is_finish.
    split; [now apply keeps_finish | apply silent_finish].
  - unfold lsrCallback. destruct err as [e|].
    + unfold ftpScanError. rewrite scanComplete_is_finish.
      split; [now apply keeps_finish | apply silent_finish].
    + destruct (fst (Flattener.processFilesJSON data (syncRoot config) 20 ""
                       (Flattener.mkAcc [] []))).
      * now apply mapLimit_keeps.
      * split; [apply keeps_refl | exact Hs].
  - now apply lsCallback_keeps.
Qed.

Lemma run_keeps P events :
  ignoresPlumbing P ->
  forall w, silent P w -> keeps P w (run config events w).
Proof.
  intros HP. induction events as [|e events IH]; intros w Hs; cbn [run].
  - apply keeps_refl.
  - destruct (dispatch_keeps P e w HP Hs) as [Hk Hs'].
    eapply keeps_trans; [exact Hk|]. now apply IH.
Qed.

Lemma sortNewestFirst_nil : sortNewestFirst [] = [].
Proof.
  apply Permutation_nil, Permutation_sym, sortNewestFirst_permutation.
Qed.

Lemma cancelled_finish w : cancelled (worldOf (finish w)) = cancelled w.
Proof. apply finish_fields. Qed.

Lemma mapLimit_cancelled items done w :
  cancelled w = true -> cancelled (worldOf (mapLimit items done w)) = true.
Proof.
  intros Hc. destruct items as [|file rest]; cbn [mapLimit]; rewrite ?Hc;
    rewrite scanComplete_is_finish, cancelled_finish; exact Hc.
Qed.

(** The cancelled flag is never cleared. *)
Lemma dispatch_cancelled e w :
  cancelled w = true -> cancelled (worldOf (dispatch config e w)) = true.
Proof.
  intros Hc. destruct e as [| |h|err|err data|k err data]; cbn [dispatch].
  - unfold startScan. destruct (scanning w); cbn; exact Hc.
  - apply cancel_fields.
  - destruct (existsb (Nat.eqb h) (armed w)); [|exact Hc].
    rewrite timeoutCancelCallback_guard; [exact Hc | right; exact Hc].
  - unfold ftpScanError. now rewrite scanComplete_is_finish, cancelled_finish.
  - unfold lsrCallback. destruct err.
    + unfold ftpScanError. now rewrite scanComplete_is_finish, cancelled_finish.
    + destruct (fst _); [now apply mapLimit_cancelled | exact Hc].
  - unfold lsCallback. rewrite Hc.
    now rewrite scanComplete_is_finish, cancelled_finish.
Qed.


(** C1 (a completed scan invokes the completion callback handed to the
    constructor exactly once).  The code does not do this.  After
    [startScan()], let the client answer the recursive listing with no error
    and an empty listing: the scan completes ([scanning] is false, the
    connection is destroyed) and the supplied completion callback has not
    been invoked.  In general [scanComplete(err, files)] is [finish()] and
    nothing more, because the callback field it calls already holds the
    arrow function that [finish] stored, and no sequence of events makes the
    scanner invoke the supplied completion callback. *)
Theorem scanComplete_skips_supplied_callback :
  (let w := run config [CallStartScan; LsrReplies None []] constructor in
   scanning w = false /\
   effects w = [SetTimeout 0 (5 * 60 * 1000); NewJSFtp 1; FtpLsr 1 (syncRoot config);
                FtpDestroy 1] /\
   completions w = []) /\
  (forall err files w, scanComplete err files w = finish w) /\
  (forall events, completions (run config events constructor) = []).
Proof.
  split; [|split].
  - cbn. unfold lsrCallback, Flattener.processFilesJSON. cbn.
    rewrite sortNewestFirst_nil. cbn. repeat split.
  - apply scanComplete_is_finish.
  - intros events.
    apply (run_keeps isComplete events isComplete_plumbing constructor).
    left. reflexivity.
Qed.

(** C2, as the code has it.  No teardown path touches the watchdog:
    [finish], [scanComplete] and [cancel] leave [this.timeout] and the set of
    armed timers as they were, so a watchdog that was armed stays armed.
    When it fires after a teardown, [timeoutCancelCallback] returns at its
    guard: nothing changes except that the timer is spent. *)
Theorem teardown_leaves_watchdog_armed w err files :
  Forall (fun r =>
            armed (worldOf r) = armed w /\ timeout (worldOf r) = timeout w /\
            watchdogArmed (worldOf r) = watchdogArmed w /\
            forall handle,
              worldOf (dispatch config (TimerFires handle) (worldOf r)) =
              if existsb (Nat.eqb handle) (armed w)
              then disarm handle (worldOf r) else worldOf r)
         [finish w; scanComplete err files w; cancel w].
Proof.
  assert (Hgen : forall r,
            scanning (worldOf r) = false -> armed (worldOf r) = armed w ->
            timeout (worldOf r) = timeout w ->
            armed (worldOf r) = armed w /\ timeout (worldOf r) = timeout w /\
            watchdogArmed (worldOf r) = watchdogArmed w /\
            forall handle,
              worldOf (dispatch config (TimerFires handle) (worldOf r)) =
              if existsb (Nat.eqb handle) (armed w)
              then disarm handle (worldOf r) else worldOf r).
  { intros r Hs Ha Ht. repeat split; try assumption.
    - unfold watchdogArmed. now rewrite Ha, Ht.
    - intros handle. cbn [dispatch]. rewrite Ha.
      destruct (existsb (Nat.eqb handle) (armed w)); [|reflexivity].
      rewrite timeoutCancelCallback_guard; [reflexivity|].
      left. exact Hs. }
  apply Forall_cons; [|apply Forall_cons; [|apply Forall_cons; [|apply Forall_nil]]].
  - apply Hgen; apply finish_fields.
  - rewrite scanComplete_is_finish. apply Hgen; apply finish_fields.
  - apply Hgen; apply cancel_fields.
Qed.


(** C6.  [startScan()] on a session whose [scanning] flag is set throws
    "startScan called while scanning" and leaves the object and the world as
    they were: no timer is armed, no connection is opened, no listing is
    requested. *)
Theorem startScan_while_scanning_throws w :
  scanning w = true ->
  startScan config w = Threw "startScan called while scanning" w.
Proof.
  intros Hs. unfold startScan. now rewrite Hs.
Qed.

(** C10.  [timeoutCancelCallback] returns without doing anything whenever
    [scanning] is false or [cancelled] is true; every teardown leaves
    [scanning] false, so the watchdog firing after [finish], [scanComplete]
    or [cancel] leaves the object and the effects untouched. *)
Theorem watchdog_is_noop_when_torn_down w :
  (scanning w = false \/ cancelled w = true -> timeoutCancelCallback w = Returned w) /\
  (forall err files,
     Forall (fun r => timeoutCancelCallback (worldOf r) = Returned (worldOf r))
            [finish w; scanComplete err files w; cancel w]).
Proof.
  split; [apply timeoutCancelCallback_guard|].
  intros err files.
  apply Forall_cons; [|apply Forall_cons; [|apply Forall_cons; [|apply Forall_nil]]];
    apply timeoutCancelCallback_guard; left.
  - apply finish_fields.
  - rewrite scanComplete_is_finish. apply finish_fields.
  - apply cancel_fields.
Qed.

End Facts.

(** C2, as stated, at concrete inputs: after the scan is cancelled, after it
    completes with an empty listing and after the client reports a failed
    login, the watchdog armed by [startScan] is still armed. *)
Lemma watchdog_armed_after_teardown :
  let go := @run Examples.helpers Examples.config in
  watchdogArmed (go [CallStartScan; CallCancel] constructor) = true /\
  watchdogArmed (go [CallStartScan; LsrReplies None []] constructor) = true /\
  watchdogArmed (go [CallStartScan; FtpEmits (FtpError 530 "Login incorrect")]
                    constructor) = true.
Proof. repeat split. Qed.


Lemma startScan_while_scanning_throws_witness :
  let w := worldOf (startScan Examples.config constructor) in
  scanning w = true /\
  startScan Examples.config w =
  Threw "startScan called while scanning" w.
Proof.
  split; [reflexivity|].
  apply (startScan_while_scanning_throws Examples.config). reflexivity.
Defined.

Lemma watchdog_is_noop_when_torn_down_witness :
  let w := worldOf (cancel (worldOf (startScan Examples.config constructor))) in
  (scanning w = false \/ cancelled w = true) /\ timeoutCancelCallback w = Returned w.
Proof.
  assert (Hg : scanning (worldOf (cancel (worldOf (startScan
                 Examples.config constructor)))) = false \/
               cancelled (worldOf (cancel (worldOf (startScan
                 Examples.config constructor)))) = true).
  { left. reflexivity. }
  split; [exact Hg|].
  apply (proj1 (watchdog_is_noop_when_torn_down _) Hg).
Defined.

End ScannerFacts.

(** ** The orchestrator *)

Module SyncFacts.
Import SyncController.

(** *** Strings *)



(** *** The queue *)

Lemma removeFileFromQueue_absent x : forall q,
  ~ In x q -> removeFileFromQueue x q = q.
Proof.
  induction q as [|a q IH]; intros Hnin; [reflexivity|].
  cbn [removeFileFromQueue].
  destruct (Nat.eqb_spec a x) as [->|Hne].
  - exfalso. apply Hnin. now left.
  - f_equal. apply IH. intros Hin. apply Hnin. now right.
Qed.

Lemma filter_keeps_all {A} (p : A -> bool) (l : list A) :
  (forall x, In x l -> p x = true) -> filter p l = l.
Proof.
  induction l as [|a l IH]; intros Hall; cbn; [reflexivity|].
  rewrite (Hall a (or_introl eq_refl)). f_equal. apply IH.
  intros x Hx. apply Hall. now right.
Qed.

(** In a queue without repeated references, the element that [splice]
    makes the loop skip is never the one looked for: the loop removes the
    file and nothing else. *)
Lemma removeFileFromQueue_NoDup x : forall q,
  NoDup q -> removeFileFromQueue x q = filter (fun y => negb (Nat.eqb y x)) q.
Proof.
  induction q as [|a q IH]; intros Hnd; [reflexivity|].
  inversion Hnd as [|? ? Hnin Hnd']; subst.
  cbn [removeFileFromQueue filter].
  destruct (Nat.eqb_spec a x) as [->|Hne]; cbn [negb].
  - rewrite filter_keeps_all.
    + destruct q as [|y q']; [reflexivity|].
      f_equal. apply removeFileFromQueue_absent.
      intros Hin. apply Hnin. now right.
    + intros y Hy. destruct (Nat.eqb_spec y x) as [->|]; [contradiction | reflexivity].
  - f_equal. now apply IH.
Qed.

(** Whatever the queue, the loop never makes it longer. *)
Lemma removeFileFromQueue_length x q :
  (List.length (removeFileFromQueue x q) <= List.length q)%nat.
Proof.
  assert (Hgen : forall n q, (List.length q <= n)%nat ->
            (List.length (removeFileFromQueue x q) <= List.length q)%nat).
  { induction n as [|n IH]; intros l Hl.
    - destruct l; [cbn; lia | cbn in Hl; lia].
    - destruct l as [|a l]; [cbn; lia|].
      cbn [removeFileFromQueue]. cbn in Hl.
      destruct (Nat.eqb a x).
      + destruct l as [|y l']; [cbn; lia|].
        cbn in Hl. specialize (IH l' ltac:(lia)). cbn. lia.
      + specialize (IH l ltac:(lia)). cbn. lia. }
  now apply (Hgen (List.length q)).
Qed.

(** Dropping entries from a queue with distinct keys leaves the keys
    distinct. *)
Lemma distinct_keys_filter (key : nat -> string) (keep : nat -> bool) :
  forall queue : list nat,
  NoDup (map key queue) -> NoDup (map key (filter keep queue)).
Proof.
  intros queue. induction queue as [|r queue IH]; intros Hdistinct; cbn [filter map].
  - constructor.
  - cbn [map] in Hdistinct. apply NoDup_cons_iff in Hdistinct.
    destruct Hdistinct as [Hfresh Hrest]. destruct (keep r); cbn [map].
    + apply NoDup_cons.
      * intros Hin. apply Hfresh. apply in_map_iff in Hin.
        destruct Hin as [r' [Hkey Hr']]. apply filter_In in Hr'.
        apply in_map_iff. exists r'. tauto.
      * now apply IH.
    + now apply IH.
Qed.

Lemma filter_filter_length {A} (p q : A -> bool) (l : list A) :
  (List.length (filter p (filter q l)) <= List.length (filter p l))%nat.
Proof.
  induction l as [|a l IH]; cbn; [lia|].
  destruct (q a); cbn; destruct (p a); cbn; lia.
Qed.

Lemma filter_length_le {A} (p : A -> bool) (l : list A) :
  (List.length (filter p l) <= List.length l)%nat.
Proof.
  induction l as [|a l IH]; cbn; [lia|]. destruct (p a); cbn; lia.
Qed.

Lemma filter_ext_in_eq {A} (p q : A -> bool) (l : list A) :
  (forall x, In x l -> p x = q x) -> filter p l = filter q l.
Proof.
  induction l as [|a l IH]; intros Heq; cbn; [reflexivity|].
  rewrite (Heq a (or_introl eq_refl)), IH; [reflexivity|].
  intros x Hx. apply Heq. now right.
Qed.

(** Setting a flag that was clear, on exactly one element of a list without
    repetitions, moves one element across. *)
Lemma filter_flip_one (p p' : nat -> bool) (r : nat) : forall q,
  NoDup q -> In r q -> p r = false -> p' r = true ->
  (forall x, x <> r -> p' x = p x) ->
  List.length (filter p' q) = S (List.length (filter p q)).
Proof.
  induction q as [|a q IH]; intros Hnd Hin Hr Hr' Hother; [contradiction|].
  inversion Hnd as [|? ? Hnin Hnd']; subst.
  cbn [filter]. destruct (Nat.eq_dec a r) as [->|Hne].
  - rewrite Hr, Hr'. cbn. f_equal. f_equal.
    apply filter_ext_in_eq. intros x Hx. apply Hother. intros ->. contradiction.
  - destruct Hin as [Heq|Hin]; [contradiction|].
    rewrite (Hother a Hne). destruct (p a); cbn; rewrite IH; auto.
Qed.

Lemma filter_weaker_length {A} (p p' : A -> bool) (l : list A) :
  (forall x, p' x = true -> p x = true) ->
  (List.length (filter p' l) <= List.length (filter p l))%nat.
Proof.
  intros Himp. induction l as [|a l IH]; cbn; [lia|].
  destruct (p' a) eqn:E.
  - rewrite (Himp a E). cbn. lia.
  - destruct (p a); cbn; lia.
Qed.

Lemma filter_clear_one (p p' : nat -> bool) (r : nat) : forall q,
  In r q -> p r = true -> p' r = false ->
  (forall x, x <> r -> p' x = p x) ->
  (List.length (filter p' q) < List.length (filter p q))%nat.
Proof.
  intros q Hin Hr Hr' Hother.
  assert (Himp : forall x, p' x = true -> p x = true).
  { intros x Hx. destruct (Nat.eq_dec x r) as [->|Hne]; [congruence|].
    now rewrite <- (Hother x Hne). }
  induction q as [|a q IH]; [contradiction|].
  cbn [filter]. destruct (Nat.eq_dec a r) as [->|Hne].
  - rewrite Hr, Hr'. cbn.
    pose proof (filter_weaker_length p p' q Himp). lia.
  - destruct Hin as [Heq|Hin]; [contradiction|].
    rewrite (Hother a Hne). specialize (IH Hin).
    destruct (p a); cbn; lia.
Qed.

Section Facts.
Context `{H : Helpers} (config : Config).

Local Abbreviation cap := (countMax config).

(** The bound that the count of downloading entries is kept under; it is the
    cap itself wherever the cap is not negative. *)
Variable bound : Z.
Hypothesis bound_cap : cap <= bound.
Local Abbreviation isDownloading s := (fun r => downloading (heap s r)).
Local Abbreviation isWaiting s := (fun r => negb (downloading (heap s r))).

(** *** [getNextFileToDownload] *)

Lemma scanQueue_spec h : forall q count nextFile,
  scanQueue h q count nextFile =
  (count + Z.of_nat (List.length (filter (fun r => downloading (h r)) q)),
   match nextFile with
   | Some f => Some f
   | None => find (fun r => negb (downloading (h r))) q
   end).
Proof.
  induction q as [|a q IH]; intros count nextFile; cbn [scanQueue filter find List.length].
  - rewrite Z.add_0_r. now destruct nextFile.
  - destruct (downloading (h a)); cbn [negb]; rewrite IH.
    + cbn [List.length]. f_equal. lia.
    + now destruct nextFile.
Qed.

Lemma getNextFileToDownload_spec s :
  getNextFileToDownload config s =
  if downloadingCount s <? cap then find (isWaiting s) (downloadQueue s) else None.
Proof.
  unfold getNextFileToDownload, downloadingCount.
  rewrite scanQueue_spec. now rewrite Z.add_0_l.
Qed.

Lemma getNextFileToDownload_Some s file :
  getNextFileToDownload config s = Some file ->
  In file (downloadQueue s) /\ downloading (heap s file) = false /\
  downloadingCount s < cap.
Proof.
  rewrite getNextFileToDownload_spec.
  destruct (Z.ltb_spec (downloadingCount s) cap) as [Hlt|]; [|discriminate].
  intros Hf. apply find_some in Hf. destruct Hf as [Hin Hw].
  repeat split; try assumption. now apply negb_true_iff in Hw.
Qed.

(** *** Starting a transfer *)

Lemma startDownloader_flag file dir s x :
  downloading (heap (startDownloader file dir s) x) =
  if Nat.eqb x file then true else downloading (heap s x).
Proof. cbn. unfold store. now destruct (Nat.eqb x file). Qed.

Lemma startDownloader_fullPath file dir s x :
  fullPath (heap (startDownloader file dir s) x) = fullPath (heap s x).
Proof.
  cbn. unfold store. destruct (Nat.eqb_spec x file) as [->|]; reflexivity.
Qed.

Lemma startDownloader_identities file dir s :
  identities (startDownloader file dir s) = identities s.
Proof.
  unfold identities. cbn [downloadQueue startDownloader].
  apply map_ext. intros x. apply startDownloader_fullPath.
Qed.

Lemma startDownloader_count file dir s :
  NoDup (downloadQueue s) -> In file (downloadQueue s) ->
  downloading (heap s file) = false ->
  downloadingCount (startDownloader file dir s) = downloadingCount s + 1.
Proof.
  intros Hnd Hin Hf. unfold downloadingCount.
  change (downloadQueue (startDownloader file dir s)) with (downloadQueue s).
  rewrite (filter_flip_one (isDownloading s)
             (isDownloading (startDownloader file dir s)) file); auto.
  - lia.
  - rewrite startDownloader_flag. now rewrite Nat.eqb_refl.
  - intros x Hx. rewrite startDownloader_flag.
    destruct (Nat.eqb_spec x file); [contradiction | reflexivity].
Qed.

Lemma startDownloader_waiting file dir s :
  In file (downloadQueue s) -> downloading (heap s file) = false ->
  (waiting (startDownloader file dir s) < waiting s)%nat.
Proof.
  intros Hin Hf. unfold waiting, waitingFiles.
  change (downloadQueue (startDownloader file dir s)) with (downloadQueue s).
  apply (filter_clear_one (isWaiting s) (isWaiting (startDownloader file dir s)) file);
    auto.
  - now rewrite Hf.
  - rewrite startDownloader_flag. now rewrite Nat.eqb_refl.
  - intros x Hx. rewrite startDownloader_flag.
    destruct (Nat.eqb_spec x file); [contradiction | reflexivity].
Qed.

Lemma consistent_NoDup s : consistent bound s -> NoDup (downloadQueue s).
Proof. intros [Hnd _]. exact (NoDup_map_inv _ _ Hnd). Qed.

(** One turn of the [while] loop keeps the queue consistent: a transfer is
    started only below the cap, and it raises the count by one. *)
Lemma startDownloader_consistent file dir s :
  consistent bound s -> getNextFileToDownload config s = Some file ->
  consistent bound (startDownloader file dir s).
Proof.
  intros Hc Hnext. pose proof (consistent_NoDup s Hc) as Hnd.
  destruct Hc as (Hid & Hfresh & Hcount).
  apply getNextFileToDownload_Some in Hnext. destruct Hnext as (Hin & Hf & Hlt).
  repeat split.
  - now rewrite startDownloader_identities.
  - exact Hfresh.
  - rewrite startDownloader_count by assumption. lia.
Qed.

(** *** [downloadNextInQueue] *)

Lemma downloadNextInQueue_consistent : forall fuel s s',
  downloadNextInQueue config fuel s = Some s' -> consistent bound s ->
  consistent bound s' /\ downloadQueue s' = downloadQueue s /\
  nextRef s' = nextRef s /\ getNextFileToDownload config s' = None.
Proof.
  induction fuel as [|fuel IH]; intros s s' Hrun Hc; cbn [downloadNextInQueue] in Hrun;
    destruct (getNextFileToDownload config s) as [file|] eqn:Hnext;
    try discriminate;
    try (injection Hrun as <-; split; [assumption | repeat split; assumption]).
  apply IH in Hrun; [|now apply startDownloader_consistent].
  destruct Hrun as (Hc' & Hq & Hn & Hnone).
  split; [assumption | repeat split; assumption].
Qed.

(** The loop ends: every turn takes one file out of the waiting ones. *)
Lemma downloadNextInQueue_total : forall fuel s,
  (waiting s <= fuel)%nat -> exists s', downloadNextInQueue config fuel s = Some s'.
Proof.
  induction fuel as [|fuel IH]; intros s Hw; cbn [downloadNextInQueue];
    destruct (getNextFileToDownload config s) as [file|] eqn:Hnext;
    try (now exists s);
    apply getNextFileToDownload_Some in Hnext; destruct Hnext as (Hin & Hf & _);
    pose proof (startDownloader_waiting file
                  (getDestinationDirectory config (heap s file)) s Hin Hf) as Hlt.
  - lia.
  - apply IH. lia.
Qed.

Lemma waiting_le_length s : (waiting s <= List.length (downloadQueue s))%nat.
Proof. apply filter_length_le. Qed.

(** *** The two handlers *)

(** Consistency looks at the store, the queue and the allocation mark
    only. *)
Lemma consistent_same s s' :
  heap s' = heap s -> downloadQueue s' = downloadQueue s -> nextRef s' = nextRef s ->
  consistent bound s -> consistent bound s'.
Proof.
  unfold consistent, identities, downloadingCount. intros -> -> ->. exact id.
Qed.

Lemma addToRemoteDeleteQueue_consistent file s :
  consistent bound s -> consistent bound (addToRemoteDeleteQueue config file s).
Proof.
  unfold addToRemoteDeleteQueue. destruct (negb (deleteRemoteFiles config)); [exact id|].
  now apply consistent_same.
Qed.

Lemma alloc_heap file s r :
  Nat.lt r (nextRef s) -> heap (alloc file s) r = heap s r.
Proof.
  intros Hlt. cbn. unfold store.
  destruct (Nat.eqb_spec r (nextRef s)) as [->|]; [|reflexivity].
  exfalso. unfold Nat.lt in Hlt. lia.
Qed.

Lemma alloc_consistent file s : consistent bound s -> consistent bound (alloc file s).
Proof.
  intros (Hid & Hfresh & Hcount).
  assert (Hsame : forall r, In r (downloadQueue s) -> heap (alloc file s) r = heap s r).
  { intros r Hr. apply alloc_heap. rewrite Forall_forall in Hfresh. now apply Hfresh. }
  repeat split.
  - unfold identities. cbn [downloadQueue alloc].
    erewrite map_ext_in; [exact Hid|]. intros r Hr. cbn beta. now rewrite Hsame.
  - cbn [downloadQueue alloc nextRef]. eapply Forall_impl; [|exact Hfresh].
    intros r Hr. unfold Nat.lt in *. lia.
  - unfold downloadingCount. cbn [downloadQueue alloc].
    erewrite filter_ext_in_eq; [exact Hcount|].
    intros r Hr. cbn beta. now rewrite Hsame.
Qed.

Lemma existsb_equals_false f (h : nat -> FtpFile) q :
  existsb (fun other => equals f (h other)) q = false ->
  ~ In (fullPath f) (map (fun r => fullPath (h r)) q).
Proof.
  intros Hex Hin. apply in_map_iff in Hin. destruct Hin as [r [Heq Hr]].
  assert (Hcontra : existsb (fun other => equals f (h other)) q = true).
  { apply existsb_exists. exists r. split; [exact Hr|].
    unfold equals. rewrite Heq. apply String.eqb_refl. }
  congruence.
Qed.

(** Appending a constructed file that equals no queued file. *)
Lemma push_consistent s r :
  consistent bound s -> Nat.lt r (nextRef s) -> downloading (heap s r) = false ->
  existsb (fun other => equals (heap s r) (heap s other)) (downloadQueue s) = false ->
  consistent bound (setQueue (downloadQueue s ++ [r]) s).
Proof.
  intros (Hid & Hfresh & Hcount) Hr Hf Hex. repeat split.
  - unfold identities. cbn [downloadQueue setQueue heap]. rewrite map_app. cbn [map].
    apply existsb_equals_false in Hex.
    apply NoDup_app; auto.
    + constructor; [intros []|constructor].
    + intros x Hx [<-|[]]. contradiction.
  - cbn [downloadQueue setQueue nextRef]. apply Forall_app. split; [exact Hfresh|].
    constructor; [exact Hr|constructor].
  - unfold downloadingCount in *. cbn [downloadQueue setQueue heap].
    rewrite filter_app. cbn [filter]. rewrite Hf. now rewrite app_nil_r.
Qed.

Lemma scannerFileFound_consistent fuel existsSync file s s' :
  consistent bound s -> downloading file = false ->
  scannerFileFound config fuel existsSync (nextRef s) (alloc file s) = Some s' ->
  consistent bound s'.
Proof.
  intros Hc Hf Hrun. apply (alloc_consistent file) in Hc.
  assert (Hnew : heap (alloc file s) (nextRef s) = file).
  { cbn. unfold store. now rewrite Nat.eqb_refl. }
  unfold scannerFileFound in Hrun.
  destruct (fileAlreadyDownloaded config existsSync (heap (alloc file s) (nextRef s))).
  - injection Hrun as <-. now apply addToRemoteDeleteQueue_consistent.
  - destruct (existsb _ (downloadQueue (alloc file s))) eqn:Hex; cbn [negb] in Hrun.
    + now injection Hrun as <-.
    + apply downloadNextInQueue_consistent in Hrun; [apply Hrun|].
      apply push_consistent;
        [exact Hc | cbn; unfold Nat.lt; lia | now rewrite Hnew | exact Hex].
Qed.

Lemma dequeue_consistent file s :
  consistent bound s ->
  consistent bound (setQueue (removeFileFromQueue file (downloadQueue s)) s).
Proof.
  intros Hc. pose proof (consistent_NoDup s Hc) as Hnd.
  destruct Hc as (Hid & Hfresh & Hcount).
  unfold consistent, identities, downloadingCount.
  cbn [downloadQueue setQueue heap nextRef].
  rewrite (removeFileFromQueue_NoDup file _ Hnd). repeat split.
  - now apply distinct_keys_filter.
  - rewrite Forall_forall in *. intros r Hr. apply filter_In in Hr. now apply Hfresh.
  - unfold downloadingCount in Hcount.
    pose proof (filter_filter_length (isDownloading s)
                  (fun y => negb (Nat.eqb y file)) (downloadQueue s)).
    lia.
Qed.

Lemma downloadDone_consistent fuel err file s s' :
  consistent bound s -> downloadDone config fuel err file s = Some s' -> consistent bound s'.
Proof.
  intros Hc Hrun. unfold downloadDone in Hrun.
  apply downloadNextInQueue_consistent in Hrun; [apply Hrun|].
  apply dequeue_consistent.
  destruct err; cbn [negb]; [exact Hc|].
  apply (consistent_same (addToRemoteDeleteQueue config file s)); try reflexivity.
  now apply addToRemoteDeleteQueue_consistent.
Qed.

Lemma initial_consistent : 0 <= bound -> consistent bound initial.
Proof.
  intros Hcap. repeat split; cbn; [constructor | constructor | exact Hcap].
Qed.

Lemma reachable_consistent s :
  0 <= bound -> reachable config s -> consistent bound s.
Proof.
  intros Hcap Hr. induction Hr as [|s e fuel s' _ IH Hwf Hrun].
  - now apply initial_consistent.
  - destruct e as [existsSync file|err file]; cbn [handle asConstructed] in *.
    + apply negb_true_iff in Hwf. eapply scannerFileFound_consistent; eauto.
    + eapply downloadDone_consistent; eauto.
Qed.

(** Every event is handled to its end with the fuel of one turn per queue
    entry, and one more for the file that may have been appended. *)
Lemma handle_total e s :
  exists s', handle config (S (List.length (downloadQueue s))) e s = Some s'.
Proof.
  destruct e as [existsSync file|err file]; cbn [handle].
  - unfold scannerFileFound.
    destruct (fileAlreadyDownloaded _ _ _); [eauto|].
    destruct (negb _); [|eauto].
    apply downloadNextInQueue_total.
    etransitivity; [apply waiting_le_length|].
    cbn [downloadQueue setQueue alloc]. rewrite length_app. cbn. lia.
  - unfold downloadDone. apply downloadNextInQueue_total.
    etransitivity; [apply waiting_le_length|].
    cbn [downloadQueue setQueue].
    etransitivity; [apply removeFileFromQueue_length|].
    destruct err; cbn [negb]; unfold addToRemoteDeleteQueue, postNotification;
      try destruct (negb (deleteRemoteFiles config)); cbn; lia.
Qed.

Lemma handleAll_reachable fuel : forall events s s',
  reachable config s -> handleAll config fuel events s = Some s' -> reachable config s'.
Proof.
  induction events as [|e events IH]; intros s s' Hr Hrun; cbn [handleAll] in Hrun.
  - now injection Hrun as <-.
  - destruct (asConstructed e) eqn:Hwf; [|discriminate].
    destruct (handle config fuel e s) as [s1|] eqn:Hstep; [|discriminate].
    apply (IH s1); [|exact Hrun].
    now apply (reachable_handle config s e fuel s1).
Qed.

End Facts.

Section Claims.
Context `{H : Helpers} (config : Config).

(** C3.  With a cap that is not negative, in every state the orchestrator
    reaches the number of queue entries that are downloading is at most the
    cap, and each turn of the loop of [downloadNextInQueue] keeps it so;
    [getNextFileToDownload] answers the first entry that is not downloading
    when the number of downloading entries is below the cap and [null]
    otherwise; and every event is handled to its end. *)
Theorem downloading_never_exceeds_cap :
  0 <= countMax config ->
  (forall s, reachable config s -> downloadingCount s <= countMax config) /\
  (forall s file dir,
     NoDup (downloadQueue s) -> downloadingCount s <= countMax config ->
     getNextFileToDownload config s = Some file ->
     downloadingCount (startDownloader file dir s) <= countMax config) /\
  (forall s,
     getNextFileToDownload config s =
     if downloadingCount s <? countMax config
     then find (fun r => negb (downloading (heap s r))) (downloadQueue s)
     else None) /\
  (forall s e, exists s',
     handle config (S (List.length (downloadQueue s))) e s = Some s').
Proof.
  intros Hcap. repeat split.
  - intros s Hr.
    apply (reachable_consistent config (countMax config) (Z.le_refl _) s Hcap Hr).
  - intros s file dir Hnd Hcount Hnext.
    apply getNextFileToDownload_Some in Hnext. destruct Hnext as (Hin & Hf & Hlt).
    rewrite startDownloader_count by assumption. lia.
  - apply getNextFileToDownload_spec.
  - intros s e. apply handle_total.
Qed.

(** C4.  In every state the orchestrator reaches, the identities (base path
    + relative directory + name) of the queue entries are pairwise
    different; and [scannerFileFound] leaves the queue as it is when the
    file equals a queued file. *)
Theorem queue_identities_distinct :
  (forall s, reachable config s -> NoDup (identities s)) /\
  (forall fuel existsSync file s s',
     existsb (fun other => equals (heap s file) (heap s other)) (downloadQueue s) = true ->
     scannerFileFound config fuel existsSync file s = Some s' ->
     downloadQueue s' = downloadQueue s).
Proof.
  split.
  - intros s Hr.
    apply (reachable_consistent config (Z.max 0 (countMax config))
             (Z.le_max_r _ _) s (Z.le_max_l _ _) Hr).
  - intros fuel existsSync file s s' Hex Hrun. unfold scannerFileFound in Hrun.
    rewrite Hex in Hrun. cbn [negb] in Hrun.
    destruct (fileAlreadyDownloaded config existsSync (heap s file));
      injection Hrun as <-; [|reflexivity].
    unfold addToRemoteDeleteQueue. now destruct (negb (deleteRemoteFiles config)).
Qed.




End Claims.

Lemma downloading_never_exceeds_cap_witness :
  let s := Examples.afterEvents (Examples.threeFound ++ Examples.threeFound) in
  0 <= countMax Examples.config /\
  @reachable Examples.helpers Examples.config s /\
  downloadingCount s <= countMax Examples.config.
Proof.
  assert (Hcap : 0 <= countMax Examples.config) by (cbn; lia).
  assert (Hr : @reachable Examples.helpers Examples.config
                 (Examples.afterEvents (Examples.threeFound ++ Examples.threeFound))).
  { unfold Examples.afterEvents.
    destruct (@handleAll Examples.helpers Examples.config 4
                (Examples.threeFound ++ Examples.threeFound) initial) as [s|] eqn:E.
    - apply (@handleAll_reachable Examples.helpers Examples.config 4
               (Examples.threeFound ++ Examples.threeFound) initial s);
        [constructor | exact E].
    - constructor. }
  split; [exact Hcap|]. split; [exact Hr|].
  apply (proj1 (@downloading_never_exceeds_cap Examples.helpers Examples.config Hcap)).
  exact Hr.
Defined.

Lemma queue_identities_distinct_witness :
  let s := Examples.afterEvents (Examples.threeFound ++ Examples.threeFound) in
  @reachable Examples.helpers Examples.config s /\ NoDup (identities s).
Proof.
  assert (Hr : @reachable Examples.helpers Examples.config
                 (Examples.afterEvents (Examples.threeFound ++ Examples.threeFound))).
  { unfold Examples.afterEvents.
    destruct (@handleAll Examples.helpers Examples.config 4
                (Examples.threeFound ++ Examples.threeFound) initial) as [s|] eqn:E.
    - apply (@handleAll_reachable Examples.helpers Examples.config 4
               (Examples.threeFound ++ Examples.threeFound) initial s);
        [constructor | exact E].
    - constructor. }
  split; [exact Hr|].
  apply (proj1 (@queue_identities_distinct Examples.helpers Examples.config)).
  exact Hr.
Defined.



End SyncFacts.

(** * Further properties *)

(** ** The tree flattener *)

Module FlattenerMore.
Import Flattener FlattenerFacts.

Section More.
Context `{H : Helpers}.

(** With a negative budget no call ever sees depth 0. *)
Lemma processFile_unbounded base file :
  forall depth level rel acc, depth < 0 ->
  outList (processFile base depth rel file acc) =
    outList acc ++ map snd (leavesOf base level rel file) /\
  filter isMaxDepth (logged (processFile base depth rel file acc)) =
    filter isMaxDepth (logged acc).
Proof.
  induction file as [n t sz|n t sz kids IH] using RemoteEntry_nested_ind;
    intros depth level rel acc Hneg.
  - destruct t; cbn; rewrite ?filter_app, ?app_nil_r; cbn; rewrite ?app_nil_r; auto.
  - destruct t;
      try (cbn; rewrite ?filter_app, ?app_nil_r; cbn; rewrite ?app_nil_r; auto; fail).
    rewrite processFile_dir, (leavesOf_dir base level).
    set (sub := appendSlash (rel ++ n)%string).
    destruct (Z.eqb_spec (depth - 1) 0) as [Hz|_]; [lia|].
    assert (Hd : depth - 1 < 0) by lia.
    revert acc. induction IH as [|k kids Hk _ IHkids]; intros acc; cbn [processFiles leaves].
    + cbn. now rewrite app_nil_r.
    + destruct (IHkids (processFile base (depth - 1) sub k acc)) as [Ho Hl].
      destruct (Hk (depth - 1) (level + 1) sub acc Hd) as [Ho1 Hl1].
      split.
      * rewrite Ho, Ho1, map_app, app_assoc. reflexivity.
      * now rewrite Hl, Hl1.
Qed.

Lemma processFiles_unbounded base data :
  forall depth level rel acc, depth < 0 ->
  outList (processFiles base depth rel data acc) =
    outList acc ++ map snd (leaves base level rel data) /\
  filter isMaxDepth (logged (processFiles base depth rel data acc)) =
    filter isMaxDepth (logged acc).
Proof.
  induction data as [|f data IH]; intros depth level rel acc Hneg;
    cbn [processFiles leaves].
  - cbn. now rewrite app_nil_r.
  - destruct (IH depth level rel (processFile base depth rel f acc) Hneg) as [Ho Hl].
    destruct (processFile_unbounded base f depth level rel acc Hneg) as [Ho1 Hl1].
    split.
    + rewrite Ho, Ho1, map_app, app_assoc. reflexivity.
    + now rewrite Hl, Hl1.
Qed.

(** X1.  A negative depth is no budget at all: the test [depth == 0] never
    succeeds on the way down, so [processFilesJSON] returns every
    transferable entry of the listing, however deep, and logs no
    truncation. *)
Theorem processFilesJSON_negative_depth data base depth rel :
  depth < 0 ->
  let r := processFilesJSON data base depth rel (mkAcc [] []) in
  fst r = Some (map snd (leaves base 0 (appendSlash rel) data)) /\
  filter isMaxDepth (logged (snd r)) = [].
Proof.
  intros Hneg r.
  destruct (processFiles_unbounded base data depth 0 (appendSlash rel) (mkAcc [] []) Hneg)
    as [Ho Hl].
  unfold r, processFilesJSON.
  destruct (Z.eqb_spec depth 0) as [E|_]; [lia|].
  cbn [fst snd]. split; [now rewrite Ho | exact Hl].
Qed.

(** X2.  A larger budget never loses a file: with [0 < depth <= depth']
    every file returned under [depth] is returned under [depth'], and a
    budget above the level of every transferable entry returns all of
    them. *)
Theorem processFilesJSON_budget_monotone data base depth depth' rel :
  0 < depth -> depth <= depth' ->
  let out d := fst (processFilesJSON data base d rel (mkAcc [] [])) in
  (forall l l', out depth = Some l -> out depth' = Some l' -> incl l l') /\
  ((forall p, In p (leaves base 0 (appendSlash rel) data) -> fst p < depth) ->
   out depth = Some (map snd (leaves base 0 (appendSlash rel) data))).
Proof.
  intros Hpos Hle out.
  assert (Hout : forall d, 0 < d ->
            out d = Some (map snd (filter (fun p => fst p <? d)
                                     (leaves base 0 (appendSlash rel) data)))).
  { intros d Hd. unfold out, processFilesJSON.
    destruct (Z.eqb_spec d 0) as [E|_]; [lia|]. cbn [fst].
    destruct (processFiles_adds base data d 0 (appendSlash rel) (mkAcc [] []) Hd)
      as [Ho _].
    rewrite Ho. cbn [outList app]. now rewrite Z.add_0_l. }
  split.
  - intros l l' Hl Hl'. rewrite (Hout depth Hpos) in Hl.
    rewrite (Hout depth' ltac:(lia)) in Hl'.
    injection Hl as <-. injection Hl' as <-.
    intros f Hf. apply in_map_iff in Hf. destruct Hf as [p [<- Hp]].
    apply filter_In in Hp. destruct Hp as [Hin Hlt].
    apply in_map. apply filter_In. split; [exact Hin|].
    apply Z.ltb_lt in Hlt. apply Z.ltb_lt. lia.
  - intros Hall. rewrite (Hout depth Hpos). do 2 f_equal.
    clear Hout. induction (leaves base 0 (appendSlash rel) data) as [|p l IH];
      [reflexivity|].
    cbn [filter]. replace (fst p <? depth) with true.
    + f_equal. apply IH. intros q Hq. apply Hall. now right.
    + symmetry. apply Z.ltb_lt. apply Hall. now left.
Qed.

End More.

Lemma processFilesJSON_negative_depth_witness :
  -1 < 0 /\
  fst (@processFilesJSON Examples.helpers Examples.nested "/sync" (-1) "" (mkAcc [] [])) =
  Some [newFtpFile "/sync" "/" (Examples.plain "top.avi");
        newFtpFile "/sync" "/tv/" (Examples.link "s01e01");
        newFtpFile "/sync" "/tv/extras/" (Examples.link "deep")].
Proof.
  assert (Hneg : -1 < 0) by lia.
  split; [exact Hneg|].
  rewrite (proj1 (@processFilesJSON_negative_depth Examples.helpers Examples.nested
                    "/sync" (-1) "" Hneg)).
  reflexivity.
Defined.

Lemma processFilesJSON_budget_monotone_witness :
  0 < 2 /\ 2 <= 3 /\
  fst (@processFilesJSON Examples.helpers Examples.nested "/sync" 3 "" (mkAcc [] [])) =
  Some (map snd (@leaves Examples.helpers "/sync" 0 "/" Examples.nested)).
Proof.
  assert (H2 : 0 < 2) by lia. assert (H3 : 0 < 3) by lia.
  assert (H23 : 2 <= 3) by lia. assert (H33 : 3 <= 3) by lia.
  split; [exact H2|]. split; [exact H23|].
  apply (proj2 (@processFilesJSON_budget_monotone Examples.helpers Examples.nested
                  "/sync" 3 3 "" H3 H33)).
  intros p Hp. cbn in Hp.
  destruct Hp as [<-|[<-|[<-|[]]]]; cbn; lia.
Defined.

End FlattenerMore.

(** ** The scanner *)

Module ScannerMore.
Import Scanner ScannerFacts Client.

Lemma live_emit conn e w : live conn w -> live conn (emit e w).
Proof. exact id. Qed.

Lemma callScanFileFound_live conn f w :
  live conn w -> callScanFileFound f w = emit (ScanFileFoundCallback f) w.
Proof. intros (_ & Hcb & _). unfold callScanFileFound. now rewrite Hcb. Qed.

Lemma filesFound_emit e w :
  filesFound (emit e w) = filesFound w ++ filter isFileFound [e].
Proof. unfold filesFound. cbn. apply filter_app. Qed.

Lemma lsCount_emit e w :
  lsCount (emit e w) = (lsCount w + List.length (filter isLs [e]))%nat.
Proof. unfold lsCount. cbn. now rewrite filter_app, length_app. Qed.

Lemma pending_emit e w :
  pending (emit e w) = match e with FtpLs _ _ k => Some k | _ => None end.
Proof. unfold pending. cbn. rewrite rev_unit. now destruct e. Qed.

Lemma armed_finish w : armed (worldOf (finish w)) = armed w.
Proof. apply finish_fields. Qed.

Lemma mapLimit_armed items : forall done w,
  armed (worldOf (mapLimit items done w)) = armed w.
Proof.
  induction items as [|file rest IH]; intros done w; cbn [mapLimit].
  - now rewrite scanComplete_is_finish, armed_finish.
  - destruct (cancelled w); [now rewrite scanComplete_is_finish, armed_finish|].
    destruct (isSymLink file); cbn [negb].
    + now destruct (ftp w).
    + rewrite IH. unfold callScanFileFound.
      now destruct (scanFileFoundCallbackFunc w).
Qed.

Lemma lsCallback_armed k err data w :
  armed (worldOf (lsCallback k err data w)) = armed w.
Proof.
  unfold lsCallback.
  destruct (cancelled w); [now rewrite scanComplete_is_finish, armed_finish|].
  destruct err; [now rewrite scanComplete_is_finish, armed_finish|].
  destruct data as [|d [|d' data]];
    try (now rewrite scanComplete_is_finish, armed_finish).
  rewrite mapLimit_armed. unfold callScanFileFound.
  now destruct (scanFileFoundCallbackFunc w).
Qed.

(** One stretch of the iteration requests at most one listing. *)
Lemma mapLimit_lsCount items : forall done w,
  (lsCount w <= lsCount (worldOf (mapLimit items done w)) <= lsCount w + 1)%nat.
Proof.
  assert (Hfin : forall w, lsCount (worldOf (finish w)) = lsCount w).
  { intros w. unfold lsCount. f_equal. apply (keeps_finish isLs). reflexivity. }
  induction items as [|file rest IH]; intros done w; cbn [mapLimit].
  - rewrite scanComplete_is_finish, Hfin. lia.
  - destruct (cancelled w); [rewrite scanComplete_is_finish, Hfin; lia|].
    destruct (isSymLink file); cbn [negb].
    + destruct (ftp w); cbn [worldOf]; [rewrite lsCount_emit; cbn; lia | lia].
    + specialize (IH (done ++ [Some file]) (callScanFileFound file w)).
      assert (Hcb : lsCount (callScanFileFound file w) = lsCount w).
      { unfold callScanFileFound. destruct (scanFileFoundCallbackFunc w); [|reflexivity].
        rewrite lsCount_emit. cbn. lia. }
      lia.
Qed.

Lemma lsCallback_lsCount k err data w :
  (lsCount w <= lsCount (worldOf (lsCallback k err data w)) <= lsCount w + 1)%nat.
Proof.
  assert (Hfin : forall e f, lsCount (worldOf (scanComplete e f w)) = lsCount w).
  { intros e f. rewrite scanComplete_is_finish. unfold lsCount. f_equal.
    apply (keeps_finish isLs). reflexivity. }
  unfold lsCallback.
  destruct (cancelled w); [rewrite Hfin; lia|].
  destruct err; [rewrite Hfin; lia|].
  destruct data as [|d [|d' data]]; try (rewrite Hfin; lia).
  set (file := setTargetData d (current k)).
  pose proof (mapLimit_lsCount (remaining k) (results k ++ [Some file])
                (callScanFileFound file w)) as Hm.
  assert (Hcb : lsCount (callScanFileFound file w) = lsCount w).
  { unfold callScanFileFound. destruct (scanFileFoundCallbackFunc w); [|reflexivity].
    rewrite lsCount_emit. cbn. lia. }
  lia.
Qed.

(** X7.  The iteration of [updateFileSizes] emits the plain files that
    precede the first symlink at once and in order, then requests the
    single-item listing of that symlink and stops: the closure it hands to
    [ftp.ls] holds the files after the symlink and the results so far, and
    nothing else has changed. *)
Theorem mapLimit_stops_at_first_symlink conn plain link rest done w :
  live conn w ->
  Forall (fun f => isSymLink f = false) plain ->
  isSymLink link = true ->
  mapLimit (plain ++ link :: rest) done w =
  Returned
    (fold_left (fun w e => emit e w)
       (map ScanFileFoundCallback plain ++
        [FtpLs conn (fullPath link) (mkLsCallback link rest (done ++ map Some plain))])
       w).
Proof.
  intros Hlive Hplain Hlink. revert done w Hlive.
  induction Hplain as [|f plain Hf _ IH]; intros done w Hlive;
    cbn [app map mapLimit fold_left].
  - destruct Hlive as (Hc & _ & Hftp). rewrite Hc, Hlink, Hftp. cbn [negb].
    now rewrite app_nil_r.
  - pose proof Hlive as (Hc & _ & _). rewrite Hc, Hf. cbn [negb].
    rewrite (callScanFileFound_live conn f w Hlive).
    rewrite IH by (now apply live_emit).
    now rewrite <- app_assoc.
Qed.

Section More.
Context `{H : Helpers} (config : Config).

(** X4.  Once [finish()] has run, whether through [scanComplete] or through
    [cancel], the session is mute for good: whatever happens afterwards,
    a new [startScan()] on the same object included, neither supplied
    callback is invoked again. *)
Theorem finished_session_is_mute w events err files :
  Forall (fun r =>
            completions (run config events (worldOf r)) = completions w /\
            filesFound (run config events (worldOf r)) = filesFound w)
         [finish w; scanComplete err files w; cancel w].
Proof.
  assert (Hgen : forall r, (forall P, ignoresPlumbing P -> keeps P w (worldOf r)) ->
            scanFileFoundCallbackFunc (worldOf r) = Noop ->
            completions (run config events (worldOf r)) = completions w /\
            filesFound (run config events (worldOf r)) = filesFound w).
  { intros r Hk Hn.
    assert (Hq : forall P, ignoresPlumbing P -> keeps P w (run config events (worldOf r))).
    { intros P HP. apply keeps_trans with (w2 := worldOf r); [now apply Hk|].
      apply run_keeps; [exact HP | now right]. }
    split; [apply (Hq isComplete isComplete_plumbing)
           | apply (Hq isFileFound isFileFound_plumbing)]. }
  assert (Hfin : forall P, ignoresPlumbing P -> keeps P w (worldOf (finish w))).
  { intros P HP. apply keeps_finish, HP. }
  apply Forall_cons; [|apply Forall_cons; [|apply Forall_cons; [|apply Forall_nil]]].
  - apply Hgen; [exact Hfin | apply finish_fields].
  - rewrite scanComplete_is_finish. apply Hgen; [exact Hfin | apply finish_fields].
  - apply Hgen; [|apply cancel_fields].
    intros P HP. pose proof HP as (_ & _ & _ & _ & Hd).
    unfold cancel. exact (keeps_finish P _ Hd).
Qed.

(** X5.  When the watchdog fires on a scan that is still running, the scan
    is cancelled: the flags are set, the connection is destroyed, the timer
    is spent, and neither supplied callback is invoked, so the consumer is
    not told that the scan timed out. *)
Theorem watchdog_cancels_running_scan_silently handle w :
  scanning w = true -> cancelled w = false -> In handle (armed w) ->
  let w' := worldOf (dispatch config (TimerFires handle) w) in
  dispatch config (TimerFires handle) w = cancel (disarm handle w) /\
  scanning w' = false /\ cancelled w' = true /\ ~ In handle (armed w') /\
  effects w' = effects w ++ destroyed w /\
  completions w' = completions w /\ filesFound w' = filesFound w.
Proof.
  intros Hs Hc Hin w'.
  assert (Hd : dispatch config (TimerFires handle) w = cancel (disarm handle w)).
  { cbn [dispatch].
    replace (existsb (Nat.eqb handle) (armed w)) with true.
    - unfold timeoutCancelCallback. cbn [scanning cancelled disarm].
      now rewrite Hs, Hc.
    - symmetry. apply existsb_exists. exists handle. split; [exact Hin|].
      apply Nat.eqb_refl. }
  unfold w'. rewrite Hd.
  pose proof (cancel_fields (disarm handle w)) as (Hs' & Hc' & _ & Ha & _ & He & _).
  cbn [disarm armed effects] in Ha, He.
  assert (Hk : forall P, (forall c, P (FtpDestroy c) = false) ->
            filter P (effects (worldOf (cancel (disarm handle w)))) = filter P (effects w)).
  { intros P HP. rewrite He, filter_app. unfold destroyed. cbn [ftp disarm].
    destruct (ftp w); cbn; rewrite ?HP; apply app_nil_r. }
  repeat split; try assumption.
  - rewrite Ha. intros Hin'. apply filter_In in Hin'. destruct Hin' as [_ Hne].
    now rewrite Nat.eqb_refl in Hne.
  - now apply Hk.
  - now apply Hk.
Qed.

(** X6.  [cancel()] on a session whose connection was never opened throws a
    type error, but only after the flags are written and the callbacks are
    swapped: the session is left cancelled and mute.  A second [cancel()] on
    a started session changes no field; it destroys the connection once
    more. *)
Theorem cancel_edge_cases w :
  (ftp w = None ->
   exists w', cancel w = Threw typeError w' /\
     cancelled w' = true /\ scanning w' = false /\
     scanCompleteCallbackFunc w' = Noop /\ scanFileFoundCallbackFunc w' = Noop /\
     effects w' = effects w) /\
  (let w1 := worldOf (cancel w) in
   let w2 := worldOf (cancel w1) in
   scanning w2 = scanning w1 /\ cancelled w2 = cancelled w1 /\
   timeout w2 = timeout w1 /\ armed w2 = armed w1 /\ ftp w2 = ftp w1 /\
   scanCompleteCallbackFunc w2 = scanCompleteCallbackFunc w1 /\
   scanFileFoundCallbackFunc w2 = scanFileFoundCallbackFunc w1 /\
   effects w2 = effects w1 ++ destroyed w).
Proof.
  split.
  - intros Hftp. unfold cancel, finish. cbn. rewrite Hftp.
    eexists. split; [reflexivity|]. repeat split.
  - cbn zeta.
    pose proof (cancel_fields w) as (Hs & Hc & Ht & Ha & Hf & He & Hcc & Hcf).
    pose proof (cancel_fields (worldOf (cancel w)))
      as (Hs2 & Hc2 & Ht2 & Ha2 & Hf2 & He2 & Hcc2 & Hcf2).
    cbn zeta in *. repeat split; try congruence.
    rewrite He2. f_equal. unfold destroyed. now rewrite Hf.
Qed.

(** X8.  Handling one event requests at most one single-item listing, and
    only the answers of the client make the scanner request one: a method
    call, a timer or an ['error'] event never does. *)
Theorem one_resolution_at_a_time e w :
  (lsCount w <= lsCount (worldOf (dispatch config e w)) <= lsCount w + 1)%nat /\
  (match e with
   | LsrReplies None _ | LsReplies _ None _ => True
   | _ => lsCount (worldOf (dispatch config e w)) = lsCount w
   end).
Proof.
  assert (Hfin : forall w0, lsCount (worldOf (finish w0)) = lsCount w0).
  { intros w0. unfold lsCount. f_equal. apply (keeps_finish isLs). reflexivity. }
  assert (Hcancel : forall w0, lsCount (worldOf (cancel w0)) = lsCount w0).
  { intros w0. unfold cancel. now rewrite Hfin. }
  assert (Hexact : match e with
                   | LsrReplies None _ | LsReplies _ None _ => True
                   | _ => lsCount (worldOf (dispatch config e w)) = lsCount w
                   end).
  { destruct e as [| |h|err|[err|] data|k [err|] data]; cbn [dispatch]; try exact I.
    - unfold startScan. destruct (scanning w); cbn [worldOf]; [reflexivity|].
      rewrite !lsCount_emit. cbn. unfold lsCount. cbn. lia.
    - apply Hcancel.
    - destruct (existsb (Nat.eqb h) (armed w)); [|reflexivity].
      unfold timeoutCancelCallback.
      destruct (negb (scanning (disarm h w)) || cancelled (disarm h w));
        [reflexivity | exact (Hcancel (disarm h w))].
    - unfold ftpScanError. now rewrite scanComplete_is_finish, Hfin.
    - unfold lsrCallback, ftpScanError. now rewrite scanComplete_is_finish, Hfin.
    - unfold lsCallback. destruct (cancelled w);
        now rewrite scanComplete_is_finish, Hfin. }
  split; [|exact Hexact].
  destruct e as [| |h|err|[err|] data|k [err|] data]; try (rewrite Hexact; lia).
  - cbn [dispatch]. unfold lsrCallback.
    destruct (fst _); [apply mapLimit_lsCount | cbn; lia].
  - apply lsCallback_lsCount.
Qed.

(** No handler other than the firing itself takes a timer out of the armed
    ones. *)
Lemma dispatch_armed e w handle :
  In handle (armed w) -> e <> TimerFires handle ->
  In handle (armed (worldOf (dispatch config e w))).
Proof.
  intros Hin Hne.
  destruct e as [| |h|err|err data|k err data]; cbn [dispatch].
  - unfold startScan. destruct (scanning w); cbn; auto.
  - unfold cancel. now rewrite armed_finish.
  - destruct (existsb (Nat.eqb h) (armed w)); [|exact Hin].
    assert (Hin' : In handle (armed (disarm h w))).
    { cbn. apply filter_In. split; [exact Hin|].
      destruct (Nat.eqb_spec handle h) as [->|]; [now contradiction Hne | reflexivity]. }
    unfold timeoutCancelCallback.
    destruct (negb (scanning (disarm h w)) || cancelled (disarm h w)); [exact Hin'|].
    unfold cancel. now rewrite armed_finish.
  - unfold ftpScanError. now rewrite scanComplete_is_finish, armed_finish.
  - unfold lsrCallback. destruct err.
    + unfold ftpScanError. now rewrite scanComplete_is_finish, armed_finish.
    + destruct (fst _); [unfold updateFileSizes; now rewrite mapLimit_armed | exact Hin].
  - now rewrite lsCallback_armed.
Qed.

(** X9.  The scanner never disarms a timer: an armed watchdog stays armed
    through every method call, answer and error, across any number of
    events, until it fires itself. *)
Theorem timers_are_never_disarmed handle events w :
  In handle (armed w) -> ~ In (TimerFires handle) events ->
  In handle (armed (run config events w)).
Proof.
  revert w. induction events as [|e events IH]; intros w Hin Hnot; cbn [run];
    [exact Hin|].
  apply IH.
  - apply dispatch_armed; [exact Hin|]. intros ->. apply Hnot. now left.
  - intros Hin'. apply Hnot. now right.
Qed.

End More.
End ScannerMore.

Module ScannerRuns.
Import Scanner ScannerFacts Client ScannerMore.

Lemma symlinks_cons f items :
  symlinks (f :: items) = if isSymLink f then S (symlinks items) else symlinks items.
Proof. unfold symlinks. cbn [filter]. now destruct (isSymLink f). Qed.

(** A client that answers every request carries the iteration to its end:
    every item is emitted once, in order, each symlink after its
    resolution. *)
Lemma mapLimit_answered target conn items : forall done w,
  live conn w ->
  let w' := answerAll target (symlinks items) (worldOf (mapLimit items done w)) in
  filesFound w' =
    filesFound w ++ map (fun f => ScanFileFoundCallback (resolve target f)) items /\
  scanning w' = false /\ pending w' = None /\
  lsCount w' = (lsCount w + symlinks items)%nat.
Proof.
  induction items as [|file rest IH]; intros done w Hlive; cbn zeta.
  - cbn [mapLimit symlinks filter List.length answerAll map].
    rewrite scanComplete_is_finish. pose proof Hlive as (_ & _ & Hftp).
    repeat split.
    + rewrite app_nil_r. apply (keeps_finish isFileFound). reflexivity.
    + apply finish_fields.
    + unfold pending. rewrite finish_effects. unfold destroyed. rewrite Hftp.
      now rewrite rev_unit.
    + unfold lsCount. rewrite Nat.add_0_r. f_equal.
      apply (keeps_finish isLs). reflexivity.
  - pose proof Hlive as (Hc & _ & Hftp).
    rewrite symlinks_cons. cbn [mapLimit map]. rewrite Hc.
    unfold resolve at 1. destruct (isSymLink file) eqn:Hf; cbn [negb].
    + rewrite Hftp. cbn [worldOf answerAll]. rewrite pending_emit.
      cbn [current]. unfold lsCallback. cbn [cancelled emit]. rewrite Hc.
      cbn [remaining results current].
      set (file' := setTargetData (target file) file).
      set (w2 := emit (FtpLs conn (fullPath file) (mkLsCallback file rest done)) w).
      assert (Hlive2 : live conn w2) by (now apply live_emit).
      rewrite (callScanFileFound_live conn file' w2 Hlive2).
      destruct (IH (done ++ [Some file']) (emit (ScanFileFoundCallback file') w2)
                  (live_emit conn _ _ Hlive2)) as (Hff & Hs & Hp & Hl).
      cbn zeta in Hff, Hs, Hp, Hl. repeat split; try assumption.
      * rewrite Hff. unfold w2. rewrite !filesFound_emit. cbn [filter isFileFound].
        now rewrite app_nil_r, <- app_assoc.
      * rewrite Hl. unfold w2. rewrite !lsCount_emit. cbn. lia.
    + rewrite (callScanFileFound_live conn file w Hlive).
      destruct (IH (done ++ [Some file]) (emit (ScanFileFoundCallback file) w)
                  (live_emit conn _ _ Hlive)) as (Hff & Hs & Hp & Hl).
      cbn zeta in Hff, Hs, Hp, Hl. repeat split; try assumption.
      * rewrite Hff, filesFound_emit. cbn [filter isFileFound].
        now rewrite <- app_assoc.
      * rewrite Hl, lsCount_emit. cbn. lia.
Qed.

Lemma mapLimit_when_cancelled items done w :
  cancelled w = true -> mapLimit items done w = finish w.
Proof.
  intros Hc. destruct items; cbn [mapLimit]; rewrite ?Hc; apply scanComplete_is_finish.
Qed.

Section Runs.
Context `{H : Helpers} (config : Config).

Lemma flattened_default data :
  fst (Flattener.processFilesJSON data (syncRoot config) 20 "" (Flattener.mkAcc [] [])) =
  Some (Flattener.outList
          (Flattener.processFiles (syncRoot config) 20 (appendSlash "") data
             (Flattener.mkAcc [] []))).
Proof. reflexivity. Qed.

(** X10.  A scan whose listing succeeds and whose every single-item listing
    is answered with one entry emits every flattened file exactly once, in
    the sorted order, each symlink after its resolution and carrying its
    target data, each plain file as it is; it requests one listing per
    symlink and ends torn down with nothing pending.  The files emitted
    are, up to order, the files that [processFilesJSON] returned. *)
Theorem answered_scan_emits_every_file target conn data w :
  live conn w ->
  let items := scanOrder config data in
  let w' := answerAll target (symlinks items)
              (worldOf (lsrCallback config None data w)) in
  filesFound w' =
    filesFound w ++ map (fun f => ScanFileFoundCallback (resolve target f)) items /\
  scanning w' = false /\ pending w' = None /\
  lsCount w' = (lsCount w + symlinks items)%nat /\
  exists flat,
    fst (Flattener.processFilesJSON data (syncRoot config) 20 ""
           (Flattener.mkAcc [] [])) = Some flat /\
    Permutation items flat.
Proof.
  intros Hlive items w'.
  assert (Hitems : items = sortNewestFirst
            (Flattener.outList
               (Flattener.processFiles (syncRoot config) 20 (appendSlash "") data
                  (Flattener.mkAcc [] [])))).
  { unfold items, scanOrder. now rewrite flattened_default. }
  assert (Hw : w' = answerAll target (symlinks items) (worldOf (mapLimit items [] w))).
  { unfold w', lsrCallback. rewrite flattened_default. unfold updateFileSizes.
    now rewrite <- Hitems. }
  rewrite Hw.
  destruct (mapLimit_answered target conn items [] w Hlive) as (Hff & Hs & Hp & Hl).
  cbn zeta in Hff, Hs, Hp, Hl. repeat split; try assumption.
  eexists. split; [apply flattened_default|].
  rewrite Hitems. apply sortNewestFirst_permutation.
Qed.

Lemma dispatch_cancelled_quiet e w :
  cancelled w = true ->
  lsCount (worldOf (dispatch config e w)) = lsCount w /\
  filesFound (worldOf (dispatch config e w)) = filesFound w.
Proof.
  intros Hc.
  assert (Hfin : forall w0, lsCount (worldOf (finish w0)) = lsCount w0 /\
                            filesFound (worldOf (finish w0)) = filesFound w0).
  { intros w0. split.
    - unfold lsCount. f_equal. apply (keeps_finish isLs). reflexivity.
    - apply (keeps_finish isFileFound). reflexivity. }
  destruct e as [| |h|err|err data|k err data]; cbn [dispatch].
  - unfold startScan. destruct (scanning w); cbn [worldOf]; [now split|].
    split.
    + rewrite !lsCount_emit. cbn. unfold lsCount. cbn. lia.
    + rewrite !filesFound_emit. cbn. unfold filesFound. cbn. now rewrite !app_nil_r.
  - unfold cancel. apply (Hfin (mkWorld _ _ _ _ _ _ _ _ _)).
  - destruct (existsb (Nat.eqb h) (armed w)); [|now split].
    rewrite timeoutCancelCallback_guard; [now split | right; exact Hc].
  - unfold ftpScanError. rewrite scanComplete_is_finish. apply Hfin.
  - unfold lsrCallback. destruct err.
    + unfold ftpScanError. rewrite scanComplete_is_finish. apply Hfin.
    + destruct (fst _); [|now split].
      unfold updateFileSizes. rewrite mapLimit_when_cancelled by exact Hc. apply Hfin.
  - unfold lsCallback. rewrite Hc, scanComplete_is_finish. apply Hfin.
Qed.

(** X11.  A cancelled session is dead: the flag is never cleared, and
    whatever happens afterwards (a new [startScan()], a listing that
    arrives, late answers) no single-item listing is requested and no file
    is emitted. *)
Theorem cancelled_session_resolves_nothing events w :
  cancelled w = true ->
  let w' := run config events w in
  cancelled w' = true /\ lsCount w' = lsCount w /\ filesFound w' = filesFound w.
Proof.
  revert w. induction events as [|e events IH]; intros w Hc; cbn [run] in *.
  - now repeat split.
  - destruct (dispatch_cancelled_quiet e w Hc) as [Hl Hf].
    destruct (IH (worldOf (dispatch config e w)) (dispatch_cancelled config e w Hc))
      as (Hc' & Hl' & Hf').
    cbn zeta in *. repeat split; congruence.
Qed.

End Runs.

Lemma watchdog_cancels_running_scan_silently_witness :
  let w := worldOf (startScan Examples.config constructor) in
  scanning w = true /\ cancelled w = false /\ In 0%nat (armed w) /\
  cancelled (worldOf (@dispatch Examples.helpers Examples.config (TimerFires 0) w)) = true /\
  completions (worldOf (@dispatch Examples.helpers Examples.config (TimerFires 0) w)) = [].
Proof.
  cbn zeta.
  assert (Hs : scanning (worldOf (startScan Examples.config constructor)) = true)
    by reflexivity.
  assert (Hc : cancelled (worldOf (startScan Examples.config constructor)) = false)
    by reflexivity.
  assert (Hin : In 0%nat (armed (worldOf (startScan Examples.config constructor))))
    by (left; reflexivity).
  destruct (@watchdog_cancels_running_scan_silently Examples.helpers Examples.config
              0%nat _ Hs Hc Hin) as (_ & _ & Hc' & _ & _ & Hcomp & _).
  split; [exact Hs|]. split; [exact Hc|]. split; [exact Hin|]. split; [exact Hc'|].
  rewrite Hcomp. reflexivity.
Defined.

Lemma cancel_edge_cases_witness :
  ftp constructor = None /\
  exists w', cancel constructor = Threw typeError w' /\ cancelled w' = true.
Proof.
  assert (Hftp : ftp constructor = None) by reflexivity.
  split; [exact Hftp|].
  destruct (proj1 (cancel_edge_cases constructor) Hftp) as [w' (Hc & Hf & _)].
  exists w'. split; assumption.
Defined.

Lemma mapLimit_stops_at_first_symlink_witness :
  let w := worldOf (startScan Examples.config constructor) in
  live 1 w /\
  Forall (fun f => isSymLink f = false) [newFtpFile "/sync" "/" (Examples.plain "p")] /\
  isSymLink (Examples.found "a") = true /\
  exists w', mapLimit ([newFtpFile "/sync" "/" (Examples.plain "p")] ++
                       Examples.found "a" :: [Examples.found "b"]) [] w = Returned w' /\
             pending w' = Some (mkLsCallback (Examples.found "a") [Examples.found "b"]
                                  [Some (newFtpFile "/sync" "/" (Examples.plain "p"))]).
Proof.
  cbn zeta.
  assert (Hlive : live 1 (worldOf (startScan Examples.config constructor)))
    by (repeat split).
  assert (Hplain : Forall (fun f => isSymLink f = false)
                     [newFtpFile "/sync" "/" (Examples.plain "p")])
    by (repeat constructor).
  assert (Hlink : isSymLink (Examples.found "a") = true) by reflexivity.
  repeat split; try assumption.
  eexists. split.
  - apply (mapLimit_stops_at_first_symlink 1 _ (Examples.found "a")
             [Examples.found "b"] [] _ Hlive Hplain Hlink).
  - reflexivity.
Defined.

Lemma timers_are_never_disarmed_witness :
  let w := worldOf (startScan Examples.config constructor) in
  let events := [CallCancel; CallStartScan; LsrReplies None Examples.fiveLinks] in
  In 0%nat (armed w) /\ ~ In (TimerFires 0) events /\
  In 0%nat (armed (@run Examples.helpers Examples.config events w)).
Proof.
  cbn zeta.
  assert (Hin : In 0%nat (armed (worldOf (startScan Examples.config constructor))))
    by (left; reflexivity).
  assert (Hnot : ~ In (TimerFires 0)
                   [CallCancel; CallStartScan; LsrReplies None Examples.fiveLinks]).
  { intros [E|[E|[E|[]]]]; discriminate E. }
  repeat split; try assumption.
  apply (@timers_are_never_disarmed Examples.helpers Examples.config 0%nat _ _ Hin Hnot).
Defined.

Lemma answered_scan_emits_every_file_witness :
  let w := worldOf (startScan Examples.config constructor) in
  live 1 w /\
  List.length (filesFound
    (answerAll (fun _ => Examples.target) 5
       (worldOf (@lsrCallback Examples.helpers Examples.config None Examples.fiveLinks w))))
  = 5%nat.
Proof.
  cbn zeta.
  assert (Hlive : live 1 (worldOf (startScan Examples.config constructor)))
    by (repeat split).
  split; [exact Hlive|].
  pose proof (@answered_scan_emits_every_file Examples.helpers Examples.config
                (fun _ => Examples.target) 1%nat Examples.fiveLinks _ Hlive)
    as (Hff & _).
  cbn zeta in Hff.
  change (symlinks (@scanOrder Examples.helpers Examples.config Examples.fiveLinks))
    with 5%nat in Hff.
  rewrite Hff. reflexivity.
Defined.

Lemma cancelled_session_resolves_nothing_witness :
  let w := worldOf (cancel (worldOf (startScan Examples.config constructor))) in
  let events := [CallStartScan; LsrReplies None Examples.fiveLinks] in
  cancelled w = true /\
  lsCount (@run Examples.helpers Examples.config events w) = 0%nat.
Proof.
  cbn zeta.
  assert (Hc : cancelled (worldOf (cancel (worldOf (startScan Examples.config
                 constructor)))) = true) by reflexivity.
  split; [exact Hc|].
  destruct (@cancelled_session_resolves_nothing Examples.helpers Examples.config
              [CallStartScan; LsrReplies None Examples.fiveLinks] _ Hc) as (_ & Hl & _).
  cbn zeta in Hl. rewrite Hl. reflexivity.
Defined.

End ScannerRuns.

(** ** The orchestrator *)

Module SyncMore.
Import SyncController SyncFacts Orchestrator.

(** X12.  [removeFileFromQueue] never drops or reorders another file and
    never lengthens the queue; but a second occurrence of the file that
    directly follows a removed one is stepped over by the loop and stays in
    the queue. *)
Theorem removeFileFromQueue_keeps_the_others x q :
  filter (fun y => negb (Nat.eqb y x)) (removeFileFromQueue x q) =
    filter (fun y => negb (Nat.eqb y x)) q /\
  (List.length (removeFileFromQueue x q) <= List.length q)%nat /\
  (forall y rest, removeFileFromQueue x (x :: y :: rest) = y :: removeFileFromQueue x rest) /\
  (forall rest, In x (removeFileFromQueue x (x :: x :: rest))).
Proof.
  split; [|split; [apply removeFileFromQueue_length|split]].
  - assert (Hgen : forall n l, (List.length l <= n)%nat ->
              filter (fun y => negb (Nat.eqb y x)) (removeFileFromQueue x l) =
              filter (fun y => negb (Nat.eqb y x)) l).
    { induction n as [|n IH]; intros l Hl.
      - destruct l; [reflexivity | cbn in Hl; lia].
      - destruct l as [|a l]; [reflexivity|].
        cbn [removeFileFromQueue]. cbn in Hl.
        destruct (Nat.eqb a x) eqn:E.
        + cbn [filter]. rewrite E. cbn [negb].
          destruct l as [|y l']; [reflexivity|].
          cbn in Hl. cbn [filter]. rewrite (IH l' ltac:(lia)). reflexivity.
        + cbn [filter]. rewrite E. cbn [negb]. f_equal. apply IH. lia. }
    now apply (Hgen (List.length q)).
  - intros y rest. cbn [removeFileFromQueue]. now rewrite Nat.eqb_refl.
  - intros rest. cbn [removeFileFromQueue]. rewrite Nat.eqb_refl. now left.
Qed.

(** X13.  On a queue that holds no reference twice, [removeFileFromQueue]
    removes the file and nothing else: the result is the queue without the
    file, in the same order. *)
Theorem removeFileFromQueue_distinct x q :
  NoDup q ->
  removeFileFromQueue x q = filter (fun y => negb (Nat.eqb y x)) q /\
  ~ In x (removeFileFromQueue x q) /\
  (forall y, y <> x -> In y q -> In y (removeFileFromQueue x q)).
Proof.
  intros Hnd. rewrite (removeFileFromQueue_NoDup x q Hnd). repeat split.
  - intros Hin. apply filter_In in Hin. destruct Hin as [_ Hne].
    now rewrite Nat.eqb_refl in Hne.
  - intros y Hne Hin. apply filter_In. split; [exact Hin|].
    destruct (Nat.eqb_spec y x); [contradiction | reflexivity].
Qed.

Lemma removeFileFromQueue_distinct_witness :
  NoDup [3; 5; 7]%nat /\ removeFileFromQueue 5 [3; 5; 7]%nat = [3; 7]%nat.
Proof.
  assert (Hnd : NoDup [3; 5; 7]%nat).
  { repeat constructor; cbn; intros Hin; repeat destruct Hin as [Hin|Hin];
      try discriminate Hin; exact Hin. }
  split; [exact Hnd|].
  rewrite (proj1 (removeFileFromQueue_distinct 5%nat [3; 5; 7]%nat Hnd)). reflexivity.
Defined.

(** X21.  [scannerShouldProcessFile] answers true exactly when no queued
    file has the identity of the file, and it is the test by which
    [scannerFileFound] decides whether to append. *)
Theorem scannerShouldProcessFile_iff_new_identity file s :
  (scannerShouldProcessFile file s = true <-> ~ In (fullPath file) (identities s)) /\
  scannerShouldProcessFile file s =
    negb (existsb (fun otherFile => equals file (heap s otherFile)) (downloadQueue s)).
Proof.
  assert (Heq : scannerShouldProcessFile file s =
                negb (existsb (fun otherFile => equals file (heap s otherFile))
                              (downloadQueue s))).
  { unfold scannerShouldProcessFile. now destruct (existsb _ _). }
  split; [|exact Heq].
  rewrite Heq, negb_true_iff. split.
  - apply existsb_equals_false.
  - intros Hnin. destruct (existsb _ _) eqn:E; [|reflexivity].
    exfalso. apply Hnin. apply existsb_exists in E. destruct E as [r [Hr Hequal]].
    unfold equals in Hequal. apply String.eqb_eq in Hequal.
    unfold identities. apply in_map_iff. exists r. split; [now symmetry | exact Hr].
Qed.

Section More.
Context `{H : Helpers} (config : Config).

Local Abbreviation cap := (countMax config).
Local Abbreviation bound := (Z.max 0 (countMax config)).

Lemma reachable_bounded s : reachable config s -> consistent bound s.
Proof.
  apply (reachable_consistent config bound (Z.le_max_r _ _) s (Z.le_max_l _ _)).
Qed.

(** What the loop leaves alone. *)
Lemma downloadNextInQueue_frame : forall fuel s s',
  downloadNextInQueue config fuel s = Some s' ->
  downloadQueue s' = downloadQueue s /\ deleteQueue s' = deleteQueue s /\
  notifications s' = notifications s /\ nextRef s' = nextRef s /\
  getNextFileToDownload config s' = None.
Proof.
  induction fuel as [|fuel IH]; intros s s' Hrun; cbn [downloadNextInQueue] in Hrun;
    destruct (getNextFileToDownload config s) as [file|] eqn:Hnext;
    try discriminate;
    try (injection Hrun as <-; repeat split; assumption).
  apply IH in Hrun. destruct Hrun as (Hq & Hd & Hn & Hr & Hnone).
  repeat split; assumption.
Qed.

Lemma scanQueue_ext h h' : forall q count nextFile,
  (forall r, In r q -> h' r = h r) ->
  scanQueue h' q count nextFile = scanQueue h q count nextFile.
Proof.
  induction q as [|a q IH]; intros count nextFile Hsame; cbn [scanQueue]; [reflexivity|].
  rewrite (Hsame a (or_introl eq_refl)).
  destruct (negb (downloading (h a))); apply IH; intros r Hr; apply Hsame; now right.
Qed.

Lemma getNextFileToDownload_ext s s' :
  downloadQueue s' = downloadQueue s ->
  (forall r, In r (downloadQueue s) -> heap s' r = heap s r) ->
  getNextFileToDownload config s' = getNextFileToDownload config s.
Proof.
  intros Hq Hsame. unfold getNextFileToDownload. rewrite Hq.
  now rewrite (scanQueue_ext (heap s) (heap s')).
Qed.

Lemma alloc_same_on_queue file s :
  consistent bound s ->
  forall r, In r (downloadQueue s) -> heap (alloc file s) r = heap s r.
Proof.
  intros (_ & Hfresh & _) r Hr. apply alloc_heap.
  rewrite Forall_forall in Hfresh. now apply Hfresh.
Qed.

(** Between two events no file waits while a slot is free. *)
Lemma reachable_saturated s :
  reachable config s -> getNextFileToDownload config s = None.
Proof.
  intros Hr. induction Hr as [|s e fuel s' Hr IH Hwf Hrun].
  { unfold getNextFileToDownload. cbn. now destruct (0 <? countMax config). }
  pose proof (reachable_bounded s Hr) as Hc.
  destruct e as [existsSync file|err file]; cbn [handle] in Hrun.
  - assert (Halloc : getNextFileToDownload config (alloc file s) = None).
    { rewrite <- IH. apply getNextFileToDownload_ext; [reflexivity|].
      now apply alloc_same_on_queue. }
    unfold scannerFileFound in Hrun.
    destruct (fileAlreadyDownloaded _ _ _).
    + injection Hrun as <-. rewrite <- Halloc.
      apply getNextFileToDownload_ext;
        unfold addToRemoteDeleteQueue; now destruct (negb (deleteRemoteFiles config)).
    + destruct (negb _); [|now injection Hrun as <-].
      now apply downloadNextInQueue_frame in Hrun.
  - unfold downloadDone in Hrun. now apply downloadNextInQueue_frame in Hrun.
Qed.

(** X14.  The orchestrator leaves no slot idle: between two events
    [getNextFileToDownload] has nothing to offer, and with a cap that is not
    negative the number of downloading entries is the smaller of the cap
    and the length of the queue. *)
Theorem no_slot_left_idle s :
  0 <= countMax config -> reachable config s ->
  getNextFileToDownload config s = None /\
  downloadingCount s = Z.min (countMax config) (Z.of_nat (List.length (downloadQueue s))).
Proof.
  intros Hcap Hr. pose proof (reachable_saturated s Hr) as Hsat.
  split; [exact Hsat|].
  pose proof (reachable_consistent config cap (Z.le_refl _) s Hcap Hr) as (_ & _ & Hle).
  rewrite getNextFileToDownload_spec in Hsat.
  assert (Hlen : downloadingCount s <= Z.of_nat (List.length (downloadQueue s))).
  { unfold downloadingCount. apply inj_le. apply filter_length_le. }
  destruct (Z.ltb_spec (downloadingCount s) cap) as [Hlt|Hge].
  - assert (Hall : downloadingCount s = Z.of_nat (List.length (downloadQueue s))).
    { unfold downloadingCount. f_equal. f_equal. apply filter_keeps_all.
      intros r Hr'. pose proof (find_none _ _ Hsat r Hr') as Hw.
      now apply negb_false_iff in Hw. }
    lia.
  - lia.
Qed.

(** X18.  With [deleteRemoteFiles] switched off nothing is ever handed to
    the remote delete queue, neither files found on disk nor finished
    downloads. *)
Theorem deletion_switched_off s :
  deleteRemoteFiles config = false -> reachable config s -> deleteQueue s = [].
Proof.
  intros Hoff Hr. induction Hr as [|s e fuel s' Hr IH Hwf Hrun]; [reflexivity|].
  assert (Hadd : forall r s0, addToRemoteDeleteQueue config r s0 = s0).
  { intros r s0. unfold addToRemoteDeleteQueue. now rewrite Hoff. }
  destruct e as [existsSync file|err file]; cbn [handle] in Hrun.
  - unfold scannerFileFound in Hrun. rewrite Hadd in Hrun.
    destruct (fileAlreadyDownloaded _ _ _); [now injection Hrun as <-|].
    destruct (negb _); [|now injection Hrun as <-].
    apply downloadNextInQueue_frame in Hrun. destruct Hrun as (_ & Hd & _).
    now rewrite Hd.
  - unfold downloadDone in Hrun. rewrite Hadd in Hrun.
    apply downloadNextInQueue_frame in Hrun. destruct Hrun as (_ & Hd & _).
    rewrite Hd. now destruct err.
Qed.

End More.
End SyncMore.

Module SyncHandlers.
Import SyncController SyncFacts Orchestrator SyncMore.

Lemma find_app_none {A} (p : A -> bool) (l1 l2 : list A) :
  find p l1 = None -> find p (l1 ++ l2) = find p l2.
Proof.
  induction l1 as [|a l1 IH]; cbn; [reflexivity|].
  destruct (p a); [discriminate | exact IH].
Qed.

Lemma find_all_false {A} (p : A -> bool) (l : list A) :
  (forall x, In x l -> p x = false) -> find p l = None.
Proof.
  induction l as [|a l IH]; intros Hall; cbn; [reflexivity|].
  rewrite (Hall a (or_introl eq_refl)). apply IH. intros x Hx. apply Hall. now right.
Qed.

Lemma existsb_same {A} (f g : A -> bool) (l : list A) :
  (forall x, In x l -> f x = g x) -> existsb f l = existsb g l.
Proof.
  induction l as [|a l IH]; intros Hsame; cbn; [reflexivity|].
  rewrite (Hsame a (or_introl eq_refl)), IH; [reflexivity|].
  intros x Hx. apply Hsame. now right.
Qed.

Section Handlers.
Context `{H : Helpers} (config : Config).

Local Abbreviation cap := (countMax config).
Local Abbreviation bound := (Z.max 0 (countMax config)).

(** X15.  When a download ends, the file leaves the queue and every other
    entry stays, in order, whether the download failed or not.  Only a
    successful download is handed to the remote delete queue (when deletion
    is switched on) and announced with a "Download completed" notification;
    a failed one is dropped without either. *)
Theorem downloadDone_effects fuel err file s s' :
  reachable config s -> downloadDone config fuel err file s = Some s' ->
  downloadQueue s' = filter (fun y => negb (Nat.eqb y file)) (downloadQueue s) /\
  ~ In file (downloadQueue s') /\
  deleteQueue s' =
    deleteQueue s ++ (if negb err && deleteRemoteFiles config then [file] else []) /\
  notifications s' =
    notifications s ++
    (if err then [] else [("Download completed " ++ name (heap s file))%string]).
Proof.
  intros Hr Hrun. pose proof (consistent_NoDup bound s (reachable_bounded config s Hr)) as Hnd.
  unfold downloadDone in Hrun. apply downloadNextInQueue_frame in Hrun.
  destruct Hrun as (Hq & Hd & Hn & _ & _).
  cbn [downloadQueue deleteQueue notifications setQueue] in Hq, Hd, Hn.
  assert (Hqueue : downloadQueue s' =
                   filter (fun y => negb (Nat.eqb y file)) (downloadQueue s)).
  { rewrite Hq. rewrite <- (removeFileFromQueue_NoDup file _ Hnd). f_equal.
    destruct err; cbn [negb]; unfold addToRemoteDeleteQueue, postNotification;
      try destruct (negb (deleteRemoteFiles config)); reflexivity. }
  split; [exact Hqueue|]. split; [|split].
  - rewrite Hqueue. intros Hin. apply filter_In in Hin. destruct Hin as [_ Hne].
    now rewrite Nat.eqb_refl in Hne.
  - rewrite Hd. destruct err; cbn [negb andb]; [now rewrite app_nil_r|].
    unfold addToRemoteDeleteQueue, postNotification.
    destruct (deleteRemoteFiles config); cbn; [reflexivity | now rewrite app_nil_r].
  - rewrite Hn. destruct err; cbn [negb]; [now rewrite app_nil_r|].
    unfold addToRemoteDeleteQueue, postNotification.
    destruct (deleteRemoteFiles config); reflexivity.
Qed.

Lemma alloc_new file s : heap (alloc file s) (nextRef s) = file.
Proof. cbn. unfold store. now rewrite Nat.eqb_refl. Qed.

Lemma alloc_flags file s :
  consistent bound s -> flags (alloc file s) = flags s.
Proof.
  intros Hc. unfold flags. cbn [downloadQueue alloc]. apply map_ext_in.
  intros r Hr. now rewrite (alloc_same_on_queue config file s Hc r Hr).
Qed.

Lemma alloc_existsb file s :
  consistent bound s ->
  existsb (fun other => equals (heap (alloc file s) (nextRef s)) (heap (alloc file s) other))
          (downloadQueue (alloc file s)) =
  existsb (fun other => equals file (heap s other)) (downloadQueue s).
Proof.
  intros Hc. rewrite alloc_new. cbn [downloadQueue alloc].
  apply existsb_same. intros r Hr.
  now rewrite (alloc_same_on_queue config file s Hc r Hr).
Qed.

(** X16.  A file that is already at its destination, or that has the
    identity of a queued file, is neither queued nor downloaded: the queue,
    its flags and the transfers stay as they are.  The file found on disk is
    handed to the remote delete queue when deletion is switched on. *)
Theorem known_file_is_not_queued fuel existsSync file s :
  reachable config s ->
  fileAlreadyDownloaded config existsSync file = true \/
  In (fullPath file) (identities s) ->
  exists s',
    handle config fuel (FileFound existsSync file) s = Some s' /\
    downloadQueue s' = downloadQueue s /\ transfers s' = transfers s /\
    flags s' = flags s /\
    deleteQueue s' =
      deleteQueue s ++
      (if fileAlreadyDownloaded config existsSync file && deleteRemoteFiles config
       then [nextRef s] else []).
Proof.
  intros Hr Hknown. pose proof (reachable_bounded config s Hr) as Hc.
  cbn [handle]. unfold scannerFileFound. rewrite (alloc_existsb file s Hc), alloc_new.
  destruct (fileAlreadyDownloaded config existsSync file) eqn:Hdisk; cbn [andb].
  - eexists. split; [reflexivity|].
    unfold addToRemoteDeleteQueue.
    destruct (deleteRemoteFiles config); cbn [negb];
      cbn [downloadQueue transfers deleteQueue alloc]; rewrite ?app_nil_r;
      repeat split; try reflexivity; apply (alloc_flags file s Hc).
  - destruct Hknown as [Hd|Hin]; [discriminate|].
    replace (existsb (fun other => equals file (heap s other)) (downloadQueue s))
      with true.
    + cbn [negb]. eexists. split; [reflexivity|].
      cbn [downloadQueue transfers deleteQueue alloc]. rewrite app_nil_r.
      repeat split; try reflexivity. apply (alloc_flags file s Hc).
    + symmetry. destruct (existsb _ _) eqn:E; [reflexivity|].
      apply existsb_equals_false in E. contradiction.
Qed.

(** X17.  A file that is neither on disk nor queued under its identity is
    appended to the end of the queue.  Its download starts at once exactly
    when fewer entries than the cap are downloading, with the file's
    destination directory; otherwise it waits and no downloader is
    started. *)
Theorem new_file_is_queued fuel existsSync file s :
  reachable config s -> downloading file = false ->
  fileAlreadyDownloaded config existsSync file = false ->
  ~ In (fullPath file) (identities s) ->
  exists s',
    handle config (S fuel) (FileFound existsSync file) s = Some s' /\
    downloadQueue s' = downloadQueue s ++ [nextRef s] /\
    downloading (heap s' (nextRef s)) = (downloadingCount s <? countMax config) /\
    transfers s' =
      transfers s ++
      (if downloadingCount s <? countMax config
       then [(nextRef s, getDestinationDirectory config file)] else []) /\
    deleteQueue s' = deleteQueue s.
Proof.
  intros Hr Hf Hdisk Hnew. pose proof (reachable_bounded config s Hr) as Hc.
  pose proof (reachable_saturated config s Hr) as Hsat.
  assert (Hfresh : forall o, In o (downloadQueue s) -> o <> nextRef s).
  { destruct Hc as (_ & Hlt & _). rewrite Forall_forall in Hlt.
    intros o Ho ->. apply Hlt in Ho. unfold Nat.lt in Ho. lia. }
  cbn [handle]. unfold scannerFileFound.
  rewrite (alloc_existsb file s Hc), alloc_new, Hdisk.
  replace (existsb (fun other => equals file (heap s other)) (downloadQueue s))
    with false.
  2:{ symmetry. destruct (existsb _ _) eqn:E; [|reflexivity].
      exfalso. apply Hnew. apply existsb_exists in E. destruct E as [o [Ho Heq]].
      unfold equals in Heq. apply String.eqb_eq in Heq.
      unfold identities. apply in_map_iff. exists o. split; [now symmetry | exact Ho]. }
  cbn [negb].
  set (r := nextRef s).
  set (s2 := setQueue (downloadQueue (alloc file s) ++ [r]) (alloc file s)).
  assert (Hheap2 : forall o, In o (downloadQueue s) -> heap s2 o = heap s o).
  { intros o Ho. apply (alloc_same_on_queue config file s Hc o Ho). }
  assert (Hnew2 : heap s2 r = file) by apply alloc_new.
  assert (Hcount2 : downloadingCount s2 = downloadingCount s).
  { unfold downloadingCount. cbn [downloadQueue setQueue alloc s2].
    rewrite filter_app. cbn [filter].
    change (downloading (heap (setQueue (downloadQueue s ++ [r]) (alloc file s)) r))
      with (downloading (heap s2 r)).
    rewrite Hnew2, Hf, app_nil_r. do 2 f_equal.
    apply filter_ext_in_eq. intros o Ho. cbn beta.
    change (heap (setQueue (downloadQueue s ++ [r]) (alloc file s)) o) with (heap s2 o).
    now rewrite Hheap2. }
  rewrite getNextFileToDownload_spec in Hsat.
  destruct (Z.ltb_spec (downloadingCount s) (countMax config)) as [Hlt|Hge].
  - (* a slot is free: nothing waits in the old queue, the new file starts *)
    assert (Hbusy : forall o, In o (downloadQueue s) -> downloading (heap s o) = true).
    { intros o Ho. pose proof (find_none _ _ Hsat o Ho) as Hw.
      now apply negb_false_iff in Hw. }
    assert (Hnext2 : getNextFileToDownload config s2 = Some r).
    { rewrite getNextFileToDownload_spec, Hcount2.
      replace (downloadingCount s <? countMax config) with true
        by (symmetry; now apply Z.ltb_lt).
      cbn [downloadQueue setQueue alloc s2]. rewrite find_app_none.
      - cbn [find].
        change (heap (setQueue (downloadQueue s ++ [r]) (alloc file s)) r)
          with (heap s2 r).
        now rewrite Hnew2, Hf.
      - apply find_all_false. intros o Ho. cbn beta.
        change (heap (setQueue (downloadQueue s ++ [r]) (alloc file s)) o)
          with (heap s2 o).
        now rewrite (Hheap2 o Ho), (Hbusy o Ho). }
    cbn [downloadNextInQueue]. rewrite Hnext2, Hnew2.
    set (s3 := startDownloader r (getDestinationDirectory config file) s2).
    assert (Hnext3 : getNextFileToDownload config s3 = None).
    { rewrite getNextFileToDownload_spec.
      destruct (downloadingCount s3 <? countMax config); [|reflexivity].
      apply find_all_false. intros o Ho. cbn beta. unfold s3.
      rewrite startDownloader_flag.
      destruct (Nat.eqb_spec o r) as [->|Hne]; [reflexivity|].
      cbn [downloadQueue startDownloader setQueue alloc s2] in Ho.
      apply in_app_or in Ho. destruct Ho as [Ho|[Ho|[]]]; [|now symmetry in Ho].
      now rewrite (Hheap2 o Ho), (Hbusy o Ho). }
    assert (Hend : downloadNextInQueue config fuel s3 = Some s3).
    { destruct fuel; cbn [downloadNextInQueue]; now rewrite Hnext3. }
    exists s3. split; [exact Hend|]. repeat split.
    + unfold s3. rewrite startDownloader_flag. now rewrite Nat.eqb_refl.
  - (* the cap is reached: the new file waits *)
    assert (Hnext2 : getNextFileToDownload config s2 = None).
    { rewrite getNextFileToDownload_spec, Hcount2.
      now replace (downloadingCount s <? countMax config) with false
        by (symmetry; now apply Z.ltb_ge). }
    exists s2. split.
    + destruct fuel; cbn [downloadNextInQueue]; now rewrite Hnext2.
    + repeat split.
      * now rewrite Hnew2.
      * cbn. now rewrite app_nil_r.
Qed.

(** *** The downloaders started *)

Lemma getDestinationDirectory_setDownloading b f :
  getDestinationDirectory config (setDownloading b f) = getDestinationDirectory config f.
Proof. reflexivity. Qed.

Lemma transfersMatch_same s s' :
  heap s' = heap s -> downloadQueue s' = downloadQueue s -> nextRef s' = nextRef s ->
  transfers s' = transfers s ->
  transfersMatch config s -> transfersMatch config s'.
Proof.
  unfold transfersMatch, started. intros -> -> -> ->. exact id.
Qed.

Lemma transfersMatch_alloc file s :
  consistent bound s -> transfersMatch config s -> transfersMatch config (alloc file s).
Proof.
  intros Hc (Hnd & Hpairs & Hqueue). split; [exact Hnd|]. split.
  - intros r dir Hp. destruct (Hpairs r dir Hp) as (Hlt & Hdir).
    rewrite (alloc_heap file s r Hlt). split; [|exact Hdir].
    cbn. unfold Nat.lt in *. lia.
  - intros r Hr. cbn [downloadQueue alloc] in Hr.
    rewrite (alloc_same_on_queue config file s Hc r Hr). now apply Hqueue.
Qed.

Lemma transfersMatch_push r s :
  downloading (heap s r) = false -> ~ In r (started s) -> transfersMatch config s ->
  transfersMatch config (setQueue (downloadQueue s ++ [r]) s).
Proof.
  intros Hf Hnot (Hnd & Hpairs & Hqueue). split; [exact Hnd|]. split; [exact Hpairs|].
  intros o Ho. cbn [downloadQueue setQueue heap] in *.
  apply in_app_or in Ho. destruct Ho as [Ho|[<-|[]]]; [now apply Hqueue|].
  split; [congruence | contradiction].
Qed.

Lemma transfersMatch_dequeue file s :
  NoDup (downloadQueue s) -> transfersMatch config s ->
  transfersMatch config (setQueue (removeFileFromQueue file (downloadQueue s)) s).
Proof.
  intros Hq (Hnd & Hpairs & Hqueue). split; [exact Hnd|]. split; [exact Hpairs|].
  intros o Ho. cbn [downloadQueue setQueue heap] in *.
  rewrite (removeFileFromQueue_NoDup file _ Hq) in Ho. apply filter_In in Ho.
  now apply Hqueue.
Qed.

Lemma transfersMatch_start file s :
  consistent bound s -> getNextFileToDownload config s = Some file ->
  transfersMatch config s ->
  transfersMatch config
    (startDownloader file (getDestinationDirectory config (heap s file)) s).
Proof.
  intros Hc Hnext (Hnd & Hpairs & Hqueue).
  apply getNextFileToDownload_Some in Hnext. destruct Hnext as (Hin & Hf & _).
  assert (Hnot : ~ In file (started s)).
  { intros Hs. apply (Hqueue file Hin) in Hs. congruence. }
  assert (Hlt : Nat.lt file (nextRef s)).
  { destruct Hc as (_ & Hfresh & _). rewrite Forall_forall in Hfresh. now apply Hfresh. }
  assert (Hdest : forall r,
            getDestinationDirectory config
              (heap (startDownloader file
                       (getDestinationDirectory config (heap s file)) s) r) =
            getDestinationDirectory config (heap s r)).
  { intros r. cbn [heap startDownloader]. unfold store.
    destruct (Nat.eqb_spec r file) as [->|]; [|reflexivity].
    apply getDestinationDirectory_setDownloading. }
  unfold transfersMatch, started.
  cbn [transfers startDownloader nextRef downloadQueue]. split; [|split].
  - rewrite map_app. cbn [map fst]. apply NoDup_app; auto.
    + constructor; [intros []|constructor].
    + intros x Hx [<-|[]]. contradiction.
  - intros r dir Hp0. rewrite Hdest.
    apply in_app_or in Hp0. destruct Hp0 as [Hp|[Hp|[]]].
    + now apply Hpairs.
    + injection Hp as <- <-. now split.
  - intros r Hr. rewrite startDownloader_flag, map_app.
    destruct (Nat.eqb_spec r file) as [->|Hne].
    + split; [intros _; apply in_or_app; right; now left | reflexivity].
    + rewrite (Hqueue r Hr). split.
      * intros Hs. apply in_or_app. now left.
      * intros Hs. apply in_app_or in Hs. destruct Hs as [Hs|[Hs|[]]]; [exact Hs|].
        cbn in Hs. congruence.
Qed.

Lemma transfersMatch_loop : forall fuel s s',
  downloadNextInQueue config fuel s = Some s' ->
  consistent bound s -> transfersMatch config s -> transfersMatch config s'.
Proof.
  induction fuel as [|fuel IH]; intros s s' Hrun Hc Hm; cbn [downloadNextInQueue] in Hrun;
    destruct (getNextFileToDownload config s) as [file|] eqn:Hnext;
    try discriminate; try (now injection Hrun as <-).
  apply IH in Hrun; [exact Hrun | |].
  - apply (startDownloader_consistent config bound (Z.le_max_r _ _)); assumption.
  - now apply transfersMatch_start.
Qed.

(** X19.  In every state the orchestrator reaches, no file has had two
    downloaders started; every downloader was started with the destination
    directory that [getDestinationDirectory] gives for its file; and a
    queue entry is marked downloading exactly when a downloader has been
    started for it. *)
Theorem downloaders_match_the_queue s :
  reachable config s -> transfersMatch config s.
Proof.
  intros Hr. induction Hr as [|s e fuel s' Hr IH Hwf Hrun].
  - split; [constructor|]. split; cbn; [intros; contradiction|].
    intros r [].
  - pose proof (reachable_bounded config s Hr) as Hc.
    destruct e as [existsSync file|err file]; cbn [handle asConstructed] in *.
    + apply negb_true_iff in Hwf.
      pose proof (alloc_consistent bound file s Hc) as Hc1.
      pose proof (transfersMatch_alloc file s Hc IH) as Hm1.
      unfold scannerFileFound in Hrun.
      destruct (fileAlreadyDownloaded _ _ _).
      * injection Hrun as <-. revert Hm1. apply transfersMatch_same;
          unfold addToRemoteDeleteQueue; now destruct (negb (deleteRemoteFiles config)).
      * destruct (existsb _ _) eqn:Hex; cbn [negb] in Hrun;
          [now injection Hrun as <-|].
        assert (Hnew : downloading (heap (alloc file s) (nextRef s)) = false)
          by (now rewrite alloc_new).
        assert (Hunstarted : ~ In (nextRef s) (started (alloc file s))).
        { intros Hs. unfold started in Hs. cbn [transfers alloc] in Hs.
          apply in_map_iff in Hs. destruct Hs as [[r dir] [Heq Hp]]. cbn in Heq. subst r.
          destruct IH as (_ & Hpairs & _). destruct (Hpairs _ dir Hp) as (Hlt & _).
          unfold Nat.lt in Hlt. lia. }
        apply transfersMatch_loop in Hrun; [exact Hrun | |].
        -- apply push_consistent;
             [exact Hc1 | cbn; unfold Nat.lt; lia | exact Hnew | exact Hex].
        -- now apply transfersMatch_push.
    + unfold downloadDone in Hrun.
      set (s2 := if negb err
                 then postNotification
                        ("Download completed " ++
                         name (heap (if negb err then addToRemoteDeleteQueue config file s
                                     else s) file))%string
                        (if negb err then addToRemoteDeleteQueue config file s else s)
                 else if negb err then addToRemoteDeleteQueue config file s else s) in *.
      assert (Hsame : heap s2 = heap s /\ downloadQueue s2 = downloadQueue s /\
                      nextRef s2 = nextRef s /\ transfers s2 = transfers s).
      { unfold s2. destruct err; cbn [negb];
          unfold addToRemoteDeleteQueue, postNotification;
          try destruct (negb (deleteRemoteFiles config)); repeat split. }
      destruct Hsame as (Hh & Hq & Hn & Ht).
      assert (Hc2 : consistent bound s2) by (now apply (consistent_same bound s)).
      assert (Hm2 : transfersMatch config s2) by (now apply (transfersMatch_same s)).
      apply transfersMatch_loop in Hrun; [exact Hrun | |].
      * now apply dequeue_consistent.
      * apply transfersMatch_dequeue; [|exact Hm2].
        now apply (consistent_NoDup bound s2).
Qed.

(** *** Order of service *)

Lemma downloadingFirst_all_waiting l :
  forallb negb l = true -> downloadingFirst l = true.
Proof.
  destruct l as [|[|] l]; cbn; [reflexivity | discriminate | exact id].
Qed.

Lemma downloadingFirst_snoc l :
  downloadingFirst l = true -> downloadingFirst (l ++ [false]) = true.
Proof.
  induction l as [|[|] l IH]; cbn; [reflexivity | exact IH |].
  intros Hall. now rewrite forallb_app, Hall.
Qed.

Lemma forallb_negb_filter (g : nat -> bool) (p : nat -> bool) q :
  forallb negb (map g q) = true -> forallb negb (map g (filter p q)) = true.
Proof.
  induction q as [|a q IH]; cbn; [reflexivity|].
  intros Hall. apply andb_true_iff in Hall. destruct Hall as [Ha Hall].
  destruct (p a); cbn; [rewrite Ha|]; now apply IH.
Qed.

Lemma downloadingFirst_filter (g : nat -> bool) (p : nat -> bool) q :
  downloadingFirst (map g q) = true -> downloadingFirst (map g (filter p q)) = true.
Proof.
  induction q as [|a q IH]; cbn [map filter downloadingFirst]; [reflexivity|].
  destruct (g a) eqn:Ha; intros Hq.
  - destruct (p a); cbn [map downloadingFirst]; rewrite ?Ha; now apply IH.
  - destruct (p a); cbn [map downloadingFirst]; rewrite ?Ha.
    + now apply forallb_negb_filter.
    + now apply downloadingFirst_all_waiting, forallb_negb_filter.
Qed.

(** Starting the first waiting file keeps the downloading entries ahead of
    the waiting ones. *)
Lemma downloadingFirst_start (g g' : nat -> bool) file : forall q,
  NoDup q -> find (fun r => negb (g r)) q = Some file ->
  g' file = true -> (forall r, r <> file -> g' r = g r) ->
  downloadingFirst (map g q) = true -> downloadingFirst (map g' q) = true.
Proof.
  induction q as [|a q IH]; intros Hnd Hfind Hfile Hother Hq; [discriminate|].
  inversion Hnd as [|? ? Hnin Hnd']; subst.
  cbn [find map downloadingFirst] in *.
  destruct (g a) eqn:Ha; cbn [negb] in Hfind.
  - assert (Hne : a <> file).
    { intros ->. apply find_some in Hfind. destruct Hfind as [_ Hw].
      rewrite Ha in Hw. discriminate. }
    rewrite (Hother a Hne), Ha. now apply IH.
  - injection Hfind as ->. rewrite Hfile.
    apply downloadingFirst_all_waiting.
    erewrite map_ext_in; [exact Hq|].
    intros r Hr. apply Hother. intros ->. contradiction.
Qed.

Lemma downloadingFirst_loop : forall fuel s s',
  downloadNextInQueue config fuel s = Some s' ->
  NoDup (downloadQueue s) ->
  downloadingFirst (flags s) = true -> downloadingFirst (flags s') = true.
Proof.
  induction fuel as [|fuel IH]; intros s s' Hrun Hnd Hq; cbn [downloadNextInQueue] in Hrun;
    destruct (getNextFileToDownload config s) as [file|] eqn:Hnext;
    try discriminate; try (now injection Hrun as <-).
  apply IH in Hrun; [exact Hrun | exact Hnd |].
  rewrite getNextFileToDownload_spec in Hnext.
  destruct (downloadingCount s <? countMax config); [|discriminate].
  unfold flags. cbn [downloadQueue startDownloader].
  apply (downloadingFirst_start (fun r => downloading (heap s r)) _ file
           (downloadQueue s) Hnd Hnext).
  - rewrite startDownloader_flag. now rewrite Nat.eqb_refl.
  - intros r Hne. rewrite startDownloader_flag.
    destruct (Nat.eqb_spec r file); [contradiction | reflexivity].
  - exact Hq.
Qed.

(** X20.  Files are served in queue order: in every state the orchestrator
    reaches, the entries that are downloading come before the entries that
    wait, so no file is downloading while a file queued before it waits. *)
Theorem downloads_start_in_queue_order s :
  reachable config s -> downloadingFirst (flags s) = true.
Proof.
  intros Hr. induction Hr as [|s e fuel s' Hr IH Hwf Hrun]; [reflexivity|].
  pose proof (reachable_bounded config s Hr) as Hc.
  destruct e as [existsSync file|err file]; cbn [handle asConstructed] in *.
  - apply negb_true_iff in Hwf.
    pose proof (alloc_flags file s Hc) as Hfl.
    pose proof (alloc_consistent bound file s Hc) as Hc1.
    unfold scannerFileFound in Hrun.
    destruct (fileAlreadyDownloaded _ _ _).
    + injection Hrun as <-. rewrite <- IH, <- Hfl.
      unfold addToRemoteDeleteQueue. now destruct (negb (deleteRemoteFiles config)).
    + destruct (existsb _ _) eqn:Hex; cbn [negb] in Hrun.
      * injection Hrun as <-. now rewrite Hfl.
      * apply downloadingFirst_loop in Hrun; [exact Hrun | |].
        -- apply (consistent_NoDup bound).
           apply push_consistent;
             [exact Hc1 | cbn; unfold Nat.lt; lia | now rewrite alloc_new | exact Hex].
        -- unfold flags. cbn [downloadQueue setQueue heap]. rewrite map_app.
           cbn [map]. rewrite alloc_new, Hwf.
           apply downloadingFirst_snoc. fold (flags (alloc file s)). now rewrite Hfl.
  - unfold downloadDone in Hrun.
    apply downloadingFirst_loop in Hrun; [exact Hrun | |].
    + cbn [downloadQueue setQueue].
      assert (Hq : downloadQueue
                     (if negb err
                      then postNotification
                             ("Download completed " ++
                              name (heap (if negb err
                                          then addToRemoteDeleteQueue config file s
                                          else s) file))%string
                             (if negb err then addToRemoteDeleteQueue config file s else s)
                      else if negb err then addToRemoteDeleteQueue config file s else s)
                   = downloadQueue s).
      { destruct err; cbn [negb]; unfold addToRemoteDeleteQueue, postNotification;
          try destruct (negb (deleteRemoteFiles config)); reflexivity. }
      rewrite Hq. pose proof (consistent_NoDup bound s Hc) as Hnd.
      rewrite (removeFileFromQueue_NoDup file _ Hnd). now apply NoDup_filter.
    + unfold flags. cbn [downloadQueue setQueue heap].
      assert (Hq : forall s0, (s0 = s \/ s0 = addToRemoteDeleteQueue config file s) ->
                downloadQueue s0 = downloadQueue s /\ heap s0 = heap s).
      { intros s0 [->| ->]; [now split|].
        unfold addToRemoteDeleteQueue. now destruct (negb (deleteRemoteFiles config)). }
      pose proof (consistent_NoDup bound s Hc) as Hnd.
      destruct err; cbn [negb]; cbn [postNotification downloadQueue heap].
      * rewrite (removeFileFromQueue_NoDup file _ Hnd). now apply downloadingFirst_filter.
      * destruct (Hq (addToRemoteDeleteQueue config file s) (or_intror eq_refl)) as [-> ->].
        rewrite (removeFileFromQueue_NoDup file _ Hnd). now apply downloadingFirst_filter.
Qed.

End Handlers.
End SyncHandlers.

Module SyncWitnesses.
Import SyncController SyncFacts Orchestrator SyncMore SyncHandlers.

Lemma afterEvents_reachable events :
  @reachable Examples.helpers Examples.config (Examples.afterEvents events).
Proof.
  unfold Examples.afterEvents.
  destruct (@handleAll Examples.helpers Examples.config 4 events initial) as [s|] eqn:E.
  - apply (@handleAll_reachable Examples.helpers Examples.config 4 events initial s);
      [constructor | exact E].
  - constructor.
Qed.

Lemma no_slot_left_idle_witness :
  let s := Examples.afterEvents (Examples.threeFound ++ Examples.threeFound) in
  0 <= countMax Examples.config /\
  @reachable Examples.helpers Examples.config s /\
  downloadingCount s = 2.
Proof.
  cbn zeta.
  assert (Hcap : 0 <= countMax Examples.config) by (cbn; lia).
  pose proof (afterEvents_reachable (Examples.threeFound ++ Examples.threeFound)) as Hr.
  split; [exact Hcap|]. split; [exact Hr|].
  rewrite (proj2 (@no_slot_left_idle Examples.helpers Examples.config _ Hcap Hr)).
  reflexivity.
Defined.

Lemma deletion_switched_off_witness :
  let cfg := mkConfig "/sync" 2 None "/dest" false in
  deleteRemoteFiles cfg = false /\
  forall s, @handleAll Examples.helpers cfg 4
              (Examples.threeFound ++ [DownloadDone false 0%nat]) initial = Some s ->
            deleteQueue s = [].
Proof.
  cbn zeta.
  assert (Hoff : deleteRemoteFiles (mkConfig "/sync" 2 None "/dest" false) = false)
    by reflexivity.
  split; [exact Hoff|].
  intros s Hs.
  apply (@deletion_switched_off Examples.helpers (mkConfig "/sync" 2 None "/dest" false)
           s Hoff).
  apply (@handleAll_reachable Examples.helpers (mkConfig "/sync" 2 None "/dest" false) 4
           (Examples.threeFound ++ [DownloadDone false 0%nat]) initial s);
    [constructor | exact Hs].
Defined.

Lemma downloadDone_effects_witness :
  let s := Examples.afterEvents Examples.threeFound in
  @reachable Examples.helpers Examples.config s /\
  forall s', @downloadDone Examples.helpers Examples.config 4 false 0%nat s = Some s' ->
    downloadQueue s' = [1; 2]%nat /\ deleteQueue s' = [0%nat].
Proof.
  cbn zeta.
  pose proof (afterEvents_reachable Examples.threeFound) as Hr.
  split; [exact Hr|]. intros s' Hs'.
  destruct (@downloadDone_effects Examples.helpers Examples.config 4 false 0%nat _ s'
              Hr Hs') as (Hq & _ & Hd & _).
  split; [rewrite Hq | rewrite Hd]; reflexivity.
Defined.

Lemma known_file_is_not_queued_witness :
  let s := Examples.afterEvents Examples.threeFound in
  @reachable Examples.helpers Examples.config s /\
  In (fullPath (Examples.resolved "a")) (identities s) /\
  exists s',
    @handle Examples.helpers Examples.config 0
      (FileFound Examples.nowhere (Examples.resolved "a")) s = Some s' /\
    downloadQueue s' = downloadQueue s.
Proof.
  cbn zeta.
  pose proof (afterEvents_reachable Examples.threeFound) as Hr.
  assert (Hin : In (fullPath (Examples.resolved "a"))
                   (identities (Examples.afterEvents Examples.threeFound)))
    by (left; reflexivity).
  split; [exact Hr|]. split; [exact Hin|].
  destruct (@known_file_is_not_queued Examples.helpers Examples.config 0
              Examples.nowhere (Examples.resolved "a") _ Hr (or_intror Hin))
    as [s' (Hs' & Hq & _)].
  exists s'. split; assumption.
Defined.

Lemma new_file_is_queued_witness :
  @reachable Examples.helpers Examples.config initial /\
  downloading (Examples.resolved "a") = false /\
  @fileAlreadyDownloaded Examples.helpers Examples.config Examples.nowhere
    (Examples.resolved "a") = false /\
  ~ In (fullPath (Examples.resolved "a")) (identities initial) /\
  exists s',
    @handle Examples.helpers Examples.config 1
      (FileFound Examples.nowhere (Examples.resolved "a")) initial = Some s' /\
    downloadQueue s' = [0%nat] /\ downloading (heap s' 0%nat) = true.
Proof.
  assert (Hr : @reachable Examples.helpers Examples.config initial) by constructor.
  assert (Hf : downloading (Examples.resolved "a") = false) by reflexivity.
  assert (Hd : @fileAlreadyDownloaded Examples.helpers Examples.config Examples.nowhere
                 (Examples.resolved "a") = false) by reflexivity.
  assert (Hn : ~ In (fullPath (Examples.resolved "a")) (identities initial))
    by (intros []).
  split; [exact Hr|]. split; [exact Hf|]. split; [exact Hd|]. split; [exact Hn|].
  destruct (@new_file_is_queued Examples.helpers Examples.config 0 Examples.nowhere
              (Examples.resolved "a") initial Hr Hf Hd Hn)
    as [s' (Hs' & Hq & Hfl & _)].
  exists s'. split; [exact Hs'|]. split; [exact Hq|].
  exact (eq_trans Hfl eq_refl).
Defined.

Lemma downloaders_match_the_queue_witness :
  let s := Examples.afterEvents (Examples.threeFound ++ Examples.threeFound) in
  @reachable Examples.helpers Examples.config s /\
  @transfersMatch Examples.helpers Examples.config s.
Proof.
  cbn zeta.
  pose proof (afterEvents_reachable (Examples.threeFound ++ Examples.threeFound)) as Hr.
  split; [exact Hr|].
  apply (@downloaders_match_the_queue Examples.helpers Examples.config _ Hr).
Defined.

Lemma downloads_start_in_queue_order_witness :
  let s := Examples.afterEvents (Examples.threeFound ++ Examples.threeFound) in
  @reachable Examples.helpers Examples.config s /\
  downloadingFirst (flags s) = true.
Proof.
  cbn zeta.
  pose proof (afterEvents_reachable (Examples.threeFound ++ Examples.threeFound)) as Hr.
  split; [exact Hr|].
  apply (@downloads_start_in_queue_order Examples.helpers Examples.config _ Hr).
Defined.

End SyncWitnesses.

(** ** Errors of the size resolution *)

Module ScannerErrors.
Import Scanner ScannerFacts Client Iteration.

Lemma mapLimit_is_mapLimitTo items : forall done w,
  mapLimit items done w = mapLimitTo startScanCompleted items done w.
Proof.
  induction items as [|file rest IH]; intros done w; cbn [mapLimit mapLimitTo];
    [reflexivity|].
  destruct (cancelled w); [reflexivity|].
  destruct (isSymLink file); cbn [negb]; [reflexivity | apply IH].
Qed.

Lemma lsCallback_is_lsCallbackTo k err data w :
  lsCallback k err data w = lsCallbackTo startScanCompleted k err data w.
Proof.
  unfold lsCallback, lsCallbackTo. destruct (cancelled w); [reflexivity|].
  destruct err; [reflexivity|].
  destruct data as [|d [|d' data]]; try reflexivity.
  apply mapLimit_is_mapLimitTo.
Qed.

(** C7 (a symlink whose single-item listing fails, or has a number of
    results other than one, ends the size resolution with an error that is
    the error of the scan).  The code produces the error and then loses it.
    Whatever function [updateFileSizes] is given to call at the end, a bad
    answer on a session that is not cancelled makes the [ls] callback call
    it at once with "Error getting data for" the symlink's path and the
    results so far, the remaining entries untouched; and the function that
    [startScan] gives it passes that error to [scanComplete].  But
    [scanComplete] is [finish()] whatever it is passed.  In a scan of five
    symlinks whose third answer has no result, the session is torn down,
    nothing more is emitted or requested, and the supplied completion
    callback is not invoked: no error of the scan is reported, where a
    completed callback that reports would have delivered it. *)
Theorem malformed_resolution_error_is_lost :
  (forall completedCallback k err data w,
     cancelled w = false -> err <> None \/ List.length data <> 1%nat ->
     lsCallbackTo completedCallback k err data w =
     completedCallback (Some (errorGettingData (current k))) (results k ++ [None]) w) /\
  (forall k err data w,
     lsCallback k err data w = lsCallbackTo startScanCompleted k err data w) /\
  (forall err updatedQueue w, startScanCompleted err updatedQueue w = finish w) /\
  (let w0 := @run Examples.helpers Examples.config Examples.twoOfFive constructor in
   let w := worldOf (@dispatch Examples.helpers Examples.config
                       (LsReplies Examples.lsC None []) w0) in
   pending w0 = Some Examples.lsC /\
   scanning w = false /\ filesFound w = filesFound w0 /\ lsCount w = lsCount w0 /\
   completions w = [] /\
   completions (worldOf (lsCallbackTo reporting Examples.lsC None [] w0)) =
   [ScanCompleteCallback
      (Some (Message "Error getting data for /sync/c"))
      (Some [Some (Examples.resolved "a"); Some (Examples.resolved "b"); None])]).
Proof.
  split; [|split; [|split]].
  - intros completedCallback k err data w Hc Hbad. unfold lsCallbackTo. rewrite Hc.
    destruct err; [reflexivity|].
    destruct data as [|d [|d' data]]; try reflexivity.
    exfalso. destruct Hbad as [Hbad|Hbad]; now apply Hbad.
  - apply lsCallback_is_lsCallbackTo.
  - intros err updatedQueue w. apply scanComplete_is_finish.
  - cbn zeta. repeat split.
Qed.

End ScannerErrors.
